(** * Ocean buyer skill: transaction dispatch, search gate and compute-job gate

    A shallow embedding of
    [packages/eightballer/skills/ocean_buyer/behaviours.py]:
    the three behaviours [GenericSearchBehaviour],
    [GenericTransactionBehaviour] and [OceanC2DBehaviour], the shared skill
    context they mutate, and the properties of the dispatch/timeout state
    machine.

    Python objects mutated in place become explicit state passing over
    [Context]; a raised exception becomes the [Raise] branch of [result];
    [processing_time], [tick_interval] and [max_processing] are binary64
    floats, as in Python. *)

From Stdlib Require Import Floats.
From stdpp Require Import gmap list strings.

(** ** Data model *)

(** A [DialogueLabel] identifies a dialogue; it is the correlation token
    between a ledger-API request and its completion. *)
Definition DialogueLabel := nat.

(** The terms of a negotiated deal are only passed through. *)
Definition Terms := nat.

Record FipaDialogue := {
  fipa_label : DialogueLabel;
  terms : Terms
}.

Record LedgerApiDialogue := {
  dialogue_label : DialogueLabel;
  associated_fipa_dialogue : FipaDialogue
}.

#[global] Instance FipaDialogue_eq_dec : EqDecision FipaDialogue.
Proof. solve_decision. Defined.

#[global] Instance LedgerApiDialogue_eq_dec : EqDecision LedgerApiDialogue.
Proof. solve_decision. Defined.

Definition Query := nat.
Definition Kwargs := list (string * string).

(** What the behaviours hand to [context.outbox]. *)
Inductive Message :=
| GET_RAW_TRANSACTION (label : DialogueLabel) (t : Terms)
| SEARCH_SERVICES (q : Query)
| C2D_JOB (receiver sender : string) (data : Kwargs).

Inductive LogLevel := INFO | DEBUG.

Inductive LogText :=
| SkippingSearch (remaining : nat)
| ProcessingTransaction (remaining : nat)
| RequestingTransfer (msg : Message)
| TimeoutDialogue (d : LedgerApiDialogue)
| SubmittingC2D
| CompletedC2D.

Definition LogRecord : Type := LogLevel * LogText.

(** The flags of [GenericStrategy] the behaviours read and write;
    [search_params] stands for the state that
    [update_search_query_params] advances. *)
Record GenericStrategy := {
  is_searching : bool;
  is_in_flight : bool;
  is_c2d_active : bool;
  is_processing : bool;
  has_completed_c2d_job : bool;
  purchased_data : option Kwargs;
  search_params : nat
}.

(** The attributes [GenericTransactionBehaviour.__init__] creates. *)
Record TransactionBehaviour := {
  tick_interval : float;
  max_processing : float;
  processing_time : float;
  waiting : list FipaDialogue;
  processing : option LedgerApiDialogue;
  timedout : gset DialogueLabel
}.

(** [self.context]: the strategy, the transaction behaviour
    ([context.behaviours.transaction]), the dialogue stores, the outbox and
    the logger.  Stores, outbox and logger are lists in order of creation. *)
Record Context := {
  strategy : GenericStrategy;
  transaction : TransactionBehaviour;
  ledger_api_dialogues : list LedgerApiDialogue;
  oef_search_dialogues : list Query;
  outbox : list Message;
  logger : list LogRecord
}.

Inductive exception :=
| ValueError (current : option LedgerApiDialogue) (d : LedgerApiDialogue)
| IndexError.

Inductive result (A : Type) :=
| Ok (a : A)
| Raise (e : exception).
Arguments Ok {A} a.
Arguments Raise {A} e.

(** The error monad of raising code, under stdpp's [x ← m; k] notation. *)
#[global] Instance result_ret : MRet result := fun A a => Ok a.

#[global] Instance result_bind : MBind result := fun A B k m =>
  match m with
  | Ok a => k a
  | Raise e => Raise e
  end.

Definition DEFAULT_MAX_PROCESSING : float := 120%float.
Definition DEFAULT_TX_INTERVAL : float := 2.0%float.
Definition DEFAULT_SEARCH_INTERVAL : float := 5.0%float.

(** ** Field updates *)

Definition set_processing_time (t : float) (b : TransactionBehaviour) :=
  {| tick_interval := tick_interval b; max_processing := max_processing b;
     processing_time := t; waiting := waiting b;
     processing := processing b; timedout := timedout b |}.

Definition set_waiting (w : list FipaDialogue) (b : TransactionBehaviour) :=
  {| tick_interval := tick_interval b; max_processing := max_processing b;
     processing_time := processing_time b; waiting := w;
     processing := processing b; timedout := timedout b |}.

Definition set_processing (p : option LedgerApiDialogue)
    (b : TransactionBehaviour) :=
  {| tick_interval := tick_interval b; max_processing := max_processing b;
     processing_time := processing_time b; waiting := waiting b;
     processing := p; timedout := timedout b |}.

Definition set_timedout (t : gset DialogueLabel) (b : TransactionBehaviour) :=
  {| tick_interval := tick_interval b; max_processing := max_processing b;
     processing_time := processing_time b; waiting := waiting b;
     processing := processing b; timedout := t |}.

Definition set_transaction (b : TransactionBehaviour) (c : Context) :=
  {| strategy := strategy c; transaction := b;
     ledger_api_dialogues := ledger_api_dialogues c;
     oef_search_dialogues := oef_search_dialogues c;
     outbox := outbox c; logger := logger c |}.

Definition set_strategy (s : GenericStrategy) (c : Context) :=
  {| strategy := s; transaction := transaction c;
     ledger_api_dialogues := ledger_api_dialogues c;
     oef_search_dialogues := oef_search_dialogues c;
     outbox := outbox c; logger := logger c |}.

Definition put_message (m : Message) (c : Context) :=
  {| strategy := strategy c; transaction := transaction c;
     ledger_api_dialogues := ledger_api_dialogues c;
     oef_search_dialogues := oef_search_dialogues c;
     outbox := outbox c ++ [m]; logger := logger c |}.

Definition log (lvl : LogLevel) (t : LogText) (c : Context) :=
  {| strategy := strategy c; transaction := transaction c;
     ledger_api_dialogues := ledger_api_dialogues c;
     oef_search_dialogues := oef_search_dialogues c;
     outbox := outbox c; logger := logger c ++ [(lvl, t)] |}.

(** [ledger_api_dialogues.create(counterparty, GET_RAW_TRANSACTION, terms)]
    belongs to the agent framework: it returns the request message and a new
    dialogue under a label no stored dialogue has.  The new label is taken
    one above the largest stored one; the caller's next statement,
    [ledger_api_dialogue.associated_fipa_dialogue = fipa_dialogue], is folded
    into the creation. *)
Definition fresh_label (store : list LedgerApiDialogue) : DialogueLabel :=
  S (max_list (dialogue_label <$> store)).

Definition ledger_api_dialogues_create (fipa : FipaDialogue) (c : Context)
    : Message * LedgerApiDialogue * Context :=
  let l := fresh_label (ledger_api_dialogues c) in
  let d := {| dialogue_label := l; associated_fipa_dialogue := fipa |} in
  (GET_RAW_TRANSACTION l (terms fipa), d,
   {| strategy := strategy c; transaction := transaction c;
      ledger_api_dialogues := ledger_api_dialogues c ++ [d];
      oef_search_dialogues := oef_search_dialogues c;
      outbox := outbox c; logger := logger c |}).

Definition oef_search_dialogues_create (q : Query) (c : Context)
    : Message * Context :=
  (SEARCH_SERVICES q,
   {| strategy := strategy c; transaction := transaction c;
      ledger_api_dialogues := ledger_api_dialogues c;
      oef_search_dialogues := oef_search_dialogues c ++ [q];
      outbox := outbox c; logger := logger c |}).

(** ** GenericTransactionBehaviour *)

Module GenericTransactionBehaviour.

(** [__init__]: the state of a behaviour built with the given
    [transaction_interval] and [max_processing]. *)
Definition init (tx_interval max_proc : float) : TransactionBehaviour :=
  {| tick_interval := tx_interval; max_processing := max_proc;
     processing_time := 0.0%float; waiting := [];
     processing := None; timedout := ∅ |}.

(** [self.waiting.pop(0)] raises [IndexError] on an empty list. *)
Definition _start_processing (c : Context) : result Context :=
  match waiting (transaction c) with
  | [] => Raise IndexError
  | fipa_dialogue :: rest =>
      let c := set_transaction (set_waiting rest (transaction c)) c in
      let c := log INFO (ProcessingTransaction (length rest)) c in
      let '(ledger_api_msg, ledger_api_dialogue, c) :=
        ledger_api_dialogues_create fipa_dialogue c in
      let c := set_transaction
                 (set_processing_time 0.0%float (transaction c)) c in
      let c := set_transaction
                 (set_processing (Some ledger_api_dialogue)
                    (transaction c)) c in
      let c := log INFO (RequestingTransfer ledger_api_msg) c in
      Ok (put_message ledger_api_msg c)
  end.

Definition _timeout_processing (c : Context) : Context :=
  match processing (transaction c) with
  | None => c
  | Some p =>
      let b := transaction c in
      let b := set_timedout ({[ dialogue_label p ]} ∪ timedout b) b in
      let b := set_waiting (waiting b ++ [associated_fipa_dialogue p]) b in
      let b := set_processing_time 0.0%float b in
      let b := set_processing None b in
      set_transaction b c
  end.

Definition act (c : Context) : result Context :=
  let continue (c : Context) : result Context :=
    if decide (length (waiting (transaction c)) = 0)
    then Ok c
    else _start_processing c in
  match processing (transaction c) with
  | Some _ =>
      let b := transaction c in
      if PrimFloat.leb (processing_time b) (max_processing b)
      then Ok (set_transaction
                 (set_processing_time
                    (PrimFloat.add (processing_time b) (tick_interval b))
                    b) c)
      else continue (_timeout_processing c)
  | None => continue c
  end.

Definition finish_processing (ledger_api_dialogue : LedgerApiDialogue)
    (c : Context) : result Context :=
  let b := transaction c in
  if decide (processing b = Some ledger_api_dialogue)
  then Ok (set_transaction
             (set_processing None (set_processing_time 0.0%float b)) c)
  else if decide (dialogue_label ledger_api_dialogue ∉ timedout b)
  then Raise (ValueError (processing b) ledger_api_dialogue)
  else
    let b := set_timedout
               (timedout b ∖ {[ dialogue_label ledger_api_dialogue ]}) b in
    Ok (log DEBUG (TimeoutDialogue ledger_api_dialogue)
          (set_transaction b c)).

Definition failed_processing (ledger_api_dialogue : LedgerApiDialogue)
    (c : Context) : result Context :=
  c ← finish_processing ledger_api_dialogue c;
  let b := transaction c in
  Ok (set_transaction
        (set_waiting
           (waiting b ++ [associated_fipa_dialogue ledger_api_dialogue])
           b) c).

End GenericTransactionBehaviour.

(** ** GenericSearchBehaviour *)

Module GenericSearchBehaviour.

Section Strategy.

(** The two strategy methods [act] calls live in [strategy.py]; they are
    taken as they come: one advances the strategy, the other reads a query
    off it. *)
Variable update_search_query_params : GenericStrategy → GenericStrategy.
Variable get_location_and_service_query : GenericStrategy → Query.

Definition act (c : Context) : Context :=
  if negb (is_searching (strategy c)) then c
  else
    let remaining_transactions_count := length (waiting (transaction c)) in
    if decide (0 < remaining_transactions_count)
    then log INFO (SkippingSearch remaining_transactions_count) c
    else
      let c := set_strategy (update_search_query_params (strategy c)) c in
      let query := get_location_and_service_query (strategy c) in
      let '(oef_search_msg, c) := oef_search_dialogues_create query c in
      put_message oef_search_msg c.

End Strategy.

End GenericSearchBehaviour.

(** ** OceanC2DBehaviour *)

Module OceanC2DBehaviour.

Section Sender.

(** [str(SENDER_ID)], the public id of the skill package. *)
Variable SENDER_ID : string.

Definition set_is_in_flight (v : bool) (s : GenericStrategy) :=
  {| is_searching := is_searching s; is_in_flight := v;
     is_c2d_active := is_c2d_active s; is_processing := is_processing s;
     has_completed_c2d_job := has_completed_c2d_job s;
     purchased_data := purchased_data s; search_params := search_params s |}.

Definition set_is_c2d_active (v : bool) (s : GenericStrategy) :=
  {| is_searching := is_searching s; is_in_flight := is_in_flight s;
     is_c2d_active := v; is_processing := is_processing s;
     has_completed_c2d_job := has_completed_c2d_job s;
     purchased_data := purchased_data s; search_params := search_params s |}.

Definition set_is_processing (v : bool) (s : GenericStrategy) :=
  {| is_searching := is_searching s; is_in_flight := is_in_flight s;
     is_c2d_active := is_c2d_active s; is_processing := v;
     has_completed_c2d_job := has_completed_c2d_job s;
     purchased_data := purchased_data s; search_params := search_params s |}.

Definition __create_envelope (kwargs : Kwargs) (c : Context) : Context :=
  let receiver_id := "eightballer/ocean:0.1.0"%string in
  let file_upload_envolope := C2D_JOB receiver_id SENDER_ID kwargs in
  let c := put_message file_upload_envolope c in
  set_strategy (set_is_in_flight true (strategy c)) c.

Definition act (c : Context) : Context :=
  if is_in_flight (strategy c) || negb (is_c2d_active (strategy c)) then c
  else
    let c :=
      match purchased_data (strategy c) with
      | Some data =>
          if negb (has_completed_c2d_job (strategy c))
          then __create_envelope data (log INFO SubmittingC2D c)
          else c
      | None => c
      end in
    if has_completed_c2d_job (strategy c)
    then
      let c := log INFO CompletedC2D c in
      let c := set_strategy (set_is_c2d_active false (strategy c)) c in
      set_strategy (set_is_processing false (strategy c)) c
    else c.

End Sender.

End OceanC2DBehaviour.

(** ** Event sequences of the transaction behaviour *)

(** Modelled from the spec: the negotiation handlers, which are not part of
    the behaviours file, append a struck deal to the tail of the
    transaction behaviour's [waiting] list. *)
Definition enqueue (f : FipaDialogue) (c : Context) : Context :=
  set_transaction
    (set_waiting (waiting (transaction c) ++ [f]) (transaction c)) c.

(** What can happen to the transaction behaviour between two observation
    points: a tick, a success or failure completion for some ledger
    dialogue, or a new deal. *)
Inductive Event :=
| Tick
| Finish (d : LedgerApiDialogue)
| Failed (d : LedgerApiDialogue)
| Enqueue (f : FipaDialogue).

Definition step (e : Event) (c : Context) : result Context :=
  match e with
  | Tick => GenericTransactionBehaviour.act c
  | Finish d => GenericTransactionBehaviour.finish_processing d c
  | Failed d => GenericTransactionBehaviour.failed_processing d c
  | Enqueue f => Ok (enqueue f c)
  end.

Fixpoint run (evs : list Event) (c : Context) : result Context :=
  match evs with
  | [] => Ok c
  | e :: evs => c ← step e c; run evs c
  end.

(** The requests dispatched so far, oldest first: each stored ledger
    dialogue was created by one dispatch. *)
Definition dispatched (c : Context) : list FipaDialogue :=
  associated_fipa_dialogue <$> ledger_api_dialogues c.

(** The number of ledger-API requests put on the outbox. *)
Definition is_ledger_request (m : Message) : bool :=
  match m with
  | GET_RAW_TRANSACTION _ _ => true
  | _ => false
  end.

Definition ledger_requests (c : Context) : list Message :=
  filter (fun m => is_ledger_request m = true) (outbox c).

(** The dispatch slots in existence: the [processing] field, as a list. *)
Definition dispatch_slots (c : Context) : list LedgerApiDialogue :=
  option_list (processing (transaction c)).

Definition empty_strategy : GenericStrategy :=
  {| is_searching := false; is_in_flight := false; is_c2d_active := false;
     is_processing := false; has_completed_c2d_job := false;
     purchased_data := None; search_params := 0 |}.

(** A skill context right after construction: nothing stored, sent or
    logged, and a transaction behaviour fresh from [__init__]. *)
Definition initial (tx_interval max_proc : float) : Context :=
  {| strategy := empty_strategy;
     transaction := GenericTransactionBehaviour.init tx_interval max_proc;
     ledger_api_dialogues := []; oef_search_dialogues := [];
     outbox := []; logger := [] |}.

(** ** Scenarios *)

(** The state the concrete timeout scenario starts from: tick interval 2.0,
    processing budget 4.0, one request enqueued. *)
Definition scenario_start (R1 : FipaDialogue) : Context :=
  enqueue R1 (initial 2.0%float 4.0%float).

(** What an observer of the dispatch loop looks at: elapsed time, slot,
    queue, timed-out tokens and the requests dispatched so far. *)
Definition observe (c : Context)
    : float * option LedgerApiDialogue * list FipaDialogue
      * gset DialogueLabel * list FipaDialogue :=
  (processing_time (transaction c), processing (transaction c),
   waiting (transaction c), timedout (transaction c), dispatched c).

Definition observe_run (evs : list Event) (c : Context) :=
  match run evs c with
  | Ok c' => Some (observe c')
  | Raise _ => None
  end.

(** One submit-and-fail cycle: a tick, then a failure completion for
    whatever the slot holds. *)
Definition retry_round (c : Context) : result Context :=
  c ← GenericTransactionBehaviour.act c;
  match processing (transaction c) with
  | Some d => GenericTransactionBehaviour.failed_processing d c
  | None => Ok c
  end.

Fixpoint retry_rounds (n : nat) (c : Context) : result Context :=
  match n with
  | 0 => Ok c
  | S n => c ← retry_round c; retry_rounds n c
  end.

(** One serve cycle: a success completion for whatever the slot holds,
    then a tick. *)
Definition serve_round (c : Context) : result Context :=
  c ← match processing (transaction c) with
      | Some d => GenericTransactionBehaviour.finish_processing d c
      | None => Ok c
      end;
  GenericTransactionBehaviour.act c.

Fixpoint serve_rounds (n : nat) (c : Context) : result Context :=
  match n with
  | 0 => Ok c
  | S n => c ← serve_round c; serve_rounds n c
  end.

(** The token of a completion differs from the token of the slot, when
    there is one. *)
Definition not_current (d : LedgerApiDialogue) (c : Context) : Prop :=
  ∀ p, processing (transaction c) = Some p →
       dialogue_label p ≠ dialogue_label d.

(** The state an event sequence leads to; the start state itself when the
    sequence raises (a raise happens before any write). *)
Definition after (evs : list Event) (c : Context) : Context :=
  match run evs c with
  | Ok c' => c'
  | Raise _ => c
  end.

(** Three sample requests and the ledger dialogues of their dispatches. *)
Definition request1 : FipaDialogue := {| fipa_label := 101; terms := 10 |}.
Definition request2 : FipaDialogue := {| fipa_label := 102; terms := 20 |}.
Definition request3 : FipaDialogue := {| fipa_label := 103; terms := 30 |}.

Definition dialogue (l : DialogueLabel) (f : FipaDialogue)
    : LedgerApiDialogue :=
  {| dialogue_label := l; associated_fipa_dialogue := f |}.

(** The scenario after its fifth tick: the first dispatch of [request1] has
    timed out and the request is in flight again under a new token. *)
Definition redispatched : Context :=
  after (replicate 5 Tick) (scenario_start request1).

(** The ledger dialogue a dispatch of [f] from state [c] creates. *)
Definition dispatch_of (f : FipaDialogue) (c : Context) : LedgerApiDialogue :=
  dialogue (fresh_label (ledger_api_dialogues c)) f.

(** The processing budget of the slot is used up: the next tick times it
    out. *)
Definition overdue (c : Context) : Prop :=
  PrimFloat.leb (processing_time (transaction c))
    (max_processing (transaction c)) = false.

(** The service order: the requests dispatched so far, then those waiting,
    head first. *)
Definition served (c : Context) : list FipaDialogue :=
  dispatched c ++ waiting (transaction c).

(** The labels under which ledger dialogues have been created. *)
Definition labels (c : Context) : list DialogueLabel :=
  dialogue_label <$> ledger_api_dialogues c.

(** The request message a dispatch puts on the outbox for its dialogue. *)
Definition request_of (d : LedgerApiDialogue) : Message :=
  GET_RAW_TRANSACTION (dialogue_label d) (terms (associated_fipa_dialogue d)).

(** Bookkeeping that holds between events: the slot holds the dialogue
    created last, timed-out tokens are tokens of created dialogues, the
    slot's token is not timed out, tokens are pairwise distinct, and the
    ledger requests on the outbox are those of the created dialogues. *)
Record well_formed (c : Context) : Prop := {
  wf_slot_latest :
    ∀ d, processing (transaction c) = Some d →
         last (ledger_api_dialogues c) = Some d;
  wf_timedout_issued :
    ∀ l, l ∈ timedout (transaction c) → l ∈ labels c;
  wf_slot_live :
    ∀ d, processing (transaction c) = Some d →
         dialogue_label d ∉ timedout (transaction c);
  wf_labels_distinct : NoDup (labels c);
  wf_requests : ledger_requests c = request_of <$> ledger_api_dialogues c
}.

(** The scenario after its fourth tick: the first dispatch of [request1]
    is still in the slot and its budget is used up. *)
Definition expiring : Context :=
  after (replicate 4 Tick) (scenario_start request1).

(** The same with [request2] and [request3] waiting behind. *)
Definition stalled : Context :=
  after (replicate 4 Tick)
    (enqueue request3 (enqueue request2 (scenario_start request1))).

(** The elapsed time [n] waiting ticks lead to: [n] float additions of the
    tick interval to the current elapsed time. *)
Definition elapsed_after (n : nat) (c : Context) : float :=
  Nat.iter n (λ t, PrimFloat.add t (tick_interval (transaction c)))
    (processing_time (transaction c)).

(** ** The bytes-literal helper of the ocean connection *)

Module utils.

(** What [convert_to_bytes_format] can raise: its own assertion, or whatever
    the decoder raises. *)
Inductive raised :=
| AssertionError (msg : string)
| DecodeError (msg : string).

(** The two accepted prefixes, [b] followed by a single or a double quote. *)
Definition single_quoted : string := "b'".
Definition double_quote : Ascii.ascii := Ascii.ascii_of_nat 34.

Definition double_quoted : string :=
  String.append "b" (String double_quote EmptyString).

(** Python's [data[0:2]] and [data[2:-1]]; a slice clamps to the string. *)
Definition prefix_of_data (data : string) : string :=
  String.substring 0 2 data.

Definition body_of_data (data : string) : string :=
  String.substring 2 (String.length data - 1 - 2) data.

Section Decoder.

(** [_codecs.escape_decode] is the interpreter's: it returns the decoded
    bytes (with a length that is dropped) or raises.  Its result is bytes by
    construction, so the second assertion of the function cannot fail. *)
Variable escape_decode : string → raised + list Byte.byte.

Definition convert_to_bytes_format (data : string)
    : raised + list Byte.byte :=
  if decide (prefix_of_data data ∈ [single_quoted; double_quoted])
  then escape_decode (body_of_data data)
  else inl (AssertionError "Data has not the bytes literal prefix").

End Decoder.

End utils.

(** * Properties *)

Import GenericTransactionBehaviour.

(** ** Completion handling *)

Lemma label_removed (l : DialogueLabel) (X : gset DialogueLabel) :
  l ∉ X ∖ {[ l ]}.
Proof.
  rewrite elem_of_difference, elem_of_singleton. intros [_ H]. by apply H.
Qed.

Lemma not_current_neq d c :
  not_current d c → processing (transaction c) ≠ Some d.
Proof. intros H E. by apply (H d E). Qed.

Lemma finish_processing_current d c :
  processing (transaction c) = Some d →
  finish_processing d c =
    Ok (set_transaction
          (set_processing None
             (set_processing_time 0.0%float (transaction c))) c).
Proof. intros E. unfold finish_processing. by rewrite decide_True. Qed.

Lemma finish_processing_late d c :
  not_current d c →
  dialogue_label d ∈ timedout (transaction c) →
  finish_processing d c =
    Ok (log DEBUG (TimeoutDialogue d)
          (set_transaction
             (set_timedout (timedout (transaction c) ∖ {[ dialogue_label d ]})
                (transaction c)) c)).
Proof.
  intros Hcur Hin. unfold finish_processing.
  rewrite decide_False by by apply not_current_neq.
  rewrite decide_False; [done | tauto].
Qed.

Lemma finish_processing_unmatched d c :
  not_current d c →
  dialogue_label d ∉ timedout (transaction c) →
  finish_processing d c = Raise (ValueError (processing (transaction c)) d).
Proof.
  intros Hcur Hin. unfold finish_processing.
  rewrite decide_False by by apply not_current_neq.
  by rewrite decide_True.
Qed.

(** A raise in [finish_processing] propagates through [failed_processing]. *)
Lemma failed_processing_raise d c e :
  finish_processing d c = Raise e → failed_processing d c = Raise e.
Proof. intros E. unfold failed_processing. by rewrite E. Qed.

Lemma failed_processing_ok d c c1 :
  finish_processing d c = Ok c1 →
  failed_processing d c =
    Ok (set_transaction
          (set_waiting
             (waiting (transaction c1) ++ [associated_fipa_dialogue d])
             (transaction c1)) c1).
Proof. intros E. unfold failed_processing. by rewrite E. Qed.

(** C5. Idempotent late success: when the token of a completion is in the
    timed-out set and is not the token of the current slot,
    [finish_processing] returns normally, removes that token from the set
    and leaves the slot ([processing] and [processing_time]) as it was,
    whatever the slot holds; the queue, the dialogue store and the outbox
    are untouched as well and one debug record is logged. *)
Theorem late_success_keeps_slot (d : LedgerApiDialogue) (c : Context) :
  dialogue_label d ∈ timedout (transaction c) →
  not_current d c →
  ∃ c', finish_processing d c = Ok c'
    ∧ timedout (transaction c')
      = (timedout (transaction c) ∖ {[ dialogue_label d ]})
    ∧ (dialogue_label d ∉ timedout (transaction c'))
    ∧ processing (transaction c') = processing (transaction c)
    ∧ processing_time (transaction c') = processing_time (transaction c)
    ∧ waiting (transaction c') = waiting (transaction c)
    ∧ ledger_api_dialogues c' = ledger_api_dialogues c
    ∧ outbox c' = outbox c
    ∧ logger c' = logger c ++ [(DEBUG, TimeoutDialogue d)].
Proof.
  intros Hin Hcur. eexists. split.
  - by apply finish_processing_late.
  - simpl. split_and!; try reflexivity. apply label_removed.
Qed.

(** C6. Unmatched completion is fatal: a completion whose token is neither
    the token of the current slot nor in the timed-out set makes
    [finish_processing] raise [ValueError]; the failure path raises the same
    error and so never reaches its re-enqueue, and a run of events that
    contains such a completion ends in that error. *)
Theorem unmatched_completion_raises (d : LedgerApiDialogue) (c : Context) :
  not_current d c →
  dialogue_label d ∉ timedout (transaction c) →
  finish_processing d c = Raise (ValueError (processing (transaction c)) d)
  ∧ failed_processing d c = Raise (ValueError (processing (transaction c)) d)
  ∧ ∀ evs, run (Finish d :: evs) c
           = Raise (ValueError (processing (transaction c)) d)
         ∧ run (Failed d :: evs) c
           = Raise (ValueError (processing (transaction c)) d).
Proof.
  intros Hcur Hout.
  pose proof (finish_processing_unmatched d c Hcur Hout) as E.
  pose proof (failed_processing_raise d c _ E) as E'.
  split_and!; [done | done |]. intros evs. simpl. by rewrite E, E'.
Qed.

(** After a late completion, success or failure, has been placed, the token
    is gone from the timed-out set and still is not the slot's. *)
Lemma late_completion_spent d c c1 :
  not_current d c →
  dialogue_label d ∈ timedout (transaction c) →
  finish_processing d c = Ok c1 ∨ failed_processing d c = Ok c1 →
  not_current d c1 ∧ (dialogue_label d ∉ timedout (transaction c1))
  ∧ processing (transaction c1) = processing (transaction c).
Proof.
  intros Hcur Hin H.
  pose proof (finish_processing_late d c Hcur Hin) as E.
  assert (processing (transaction c1) = processing (transaction c)
          ∧ timedout (transaction c1)
            = (timedout (transaction c) ∖ {[ dialogue_label d ]})) as [Ep Et].
  { destruct H as [H | H].
    - rewrite E in H. injection H as <-. done.
    - rewrite (failed_processing_ok _ _ _ E) in H. injection H as <-. done. }
  split_and!; [ | rewrite Et; apply label_removed | done].
  intros p Hp. rewrite Ep in Hp. by apply Hcur.
Qed.

(** C2, as the code has it. A second completion for a timed-out token that
    an earlier completion already removed from the timed-out set, and that
    is not the token of the current slot, is not absorbed: both
    [finish_processing] and [failed_processing] raise [ValueError], the
    error of an unmatched completion, before touching any state. *)
Theorem duplicate_late_resolution_raises
    (d : LedgerApiDialogue) (c c1 : Context) :
  not_current d c →
  dialogue_label d ∈ timedout (transaction c) →
  finish_processing d c = Ok c1 ∨ failed_processing d c = Ok c1 →
  finish_processing d c1 = Raise (ValueError (processing (transaction c)) d)
  ∧ failed_processing d c1
    = Raise (ValueError (processing (transaction c)) d).
Proof.
  intros Hcur Hin H.
  destruct (late_completion_spent d c c1 Hcur Hin H) as (Hcur1 & Hout1 & Ep).
  pose proof (finish_processing_unmatched d c1 Hcur1 Hout1) as E.
  rewrite Ep in E. split; [done |]. by apply failed_processing_raise.
Qed.

Lemma late_success_keeps_slot_witness :
  ∃ c', finish_processing (dialogue 1 request1) redispatched = Ok c'
      ∧ processing (transaction c') = Some (dialogue 2 request1)
      ∧ timedout (transaction c') = ∅.
Proof.
  destruct (late_success_keeps_slot (dialogue 1 request1) redispatched)
    as (c' & E & Et & _ & Ep & _).
  - vm_compute. reflexivity.
  - intros p Hp. vm_compute in Hp. injection Hp as <-. vm_compute. lia.
  - exists c'. split_and!; [exact E | rewrite Ep | rewrite Et];
      vm_compute; reflexivity.
Defined.

Lemma unmatched_completion_raises_witness :
  finish_processing (dialogue 7 request2) redispatched
  = Raise (ValueError (Some (dialogue 2 request1)) (dialogue 7 request2)).
Proof.
  refine (proj1 (unmatched_completion_raises
                   (dialogue 7 request2) redispatched _ _)).
  - intros p Hp. vm_compute in Hp. injection Hp as <-. vm_compute. lia.
  - vm_compute. intros H. discriminate H.
Defined.

(** C2 fails on the code: in the scenario, the first completion for the
    timed-out token 1 is placed and removes the token; the second one, for
    the same token, raises instead of being logged and dropped. *)
Lemma duplicate_late_resolution_counterexample :
  ∃ c6, finish_processing (dialogue 1 request1) redispatched = Ok c6
      ∧ processing (transaction c6) = Some (dialogue 2 request1)
      ∧ timedout (transaction c6) = ∅
      ∧ finish_processing (dialogue 1 request1) c6
        = Raise (ValueError (Some (dialogue 2 request1))
                   (dialogue 1 request1)).
Proof. eexists. split_and!; vm_compute; reflexivity. Qed.

Lemma duplicate_late_resolution_raises_witness :
  failed_processing (dialogue 1 request1)
    (after [Finish (dialogue 1 request1)] redispatched)
  = Raise (ValueError (Some (dialogue 2 request1)) (dialogue 1 request1)).
Proof.
  refine (proj2 (duplicate_late_resolution_raises
                   (dialogue 1 request1) redispatched _ _ _ _)).
  - intros p Hp. vm_compute in Hp. injection Hp as <-. vm_compute. lia.
  - vm_compute. reflexivity.
  - left. vm_compute. reflexivity.
Defined.

(** ** The concrete timeout scenario *)

(** C3, as the code has it. With tick interval 2.0 and budget 4.0, after
    enqueuing R1: tick 1 dispatches R1 with elapsed 0; tick 2 sets elapsed
    2.0 and waits; tick 3 sets elapsed 4.0 and waits; tick 4 still finds
    4.0 within the budget, sets elapsed 6.0 and waits; tick 5 finds 6.0 over
    the budget, times the slot out (token 1 into the timed-out set, R1
    appended to the queue) and in the same tick dispatches R1 again as a
    new slot with a new token and elapsed 0. *)
Theorem timeout_scenario_trace (R1 : FipaDialogue) :
  let c0 := scenario_start R1 in
  observe c0 = (0.0%float, None, [R1], ∅, [])
  ∧ observe_run (replicate 1 Tick) c0
    = Some (0.0%float, Some (dialogue 1 R1), [], ∅, [R1])
  ∧ observe_run (replicate 2 Tick) c0
    = Some (2.0%float, Some (dialogue 1 R1), [], ∅, [R1])
  ∧ observe_run (replicate 3 Tick) c0
    = Some (4.0%float, Some (dialogue 1 R1), [], ∅, [R1])
  ∧ observe_run (replicate 4 Tick) c0
    = Some (6.0%float, Some (dialogue 1 R1), [], ∅, [R1])
  ∧ observe_run (replicate 5 Tick) c0
    = Some (0.0%float, Some (dialogue 2 R1), [], {[ 1 ]}, [R1; R1]).
Proof.
  intros c0. subst c0. unfold observe_run, observe, scenario_start.
  split_and!; vm_compute; reflexivity.
Qed.

(** C3 fails on the code at tick 4: the slot still holds the first
    dispatch, nothing has timed out and nothing was put back on the queue. *)
Lemma timeout_scenario_counterexample :
  ∃ c4, run (replicate 4 Tick) (scenario_start request1) = Ok c4
      ∧ processing (transaction c4) = Some (dialogue 1 request1)
      ∧ processing_time (transaction c4) = 6.0%float
      ∧ waiting (transaction c4) = []
      ∧ timedout (transaction c4) = ∅.
Proof. eexists. split_and!; vm_compute; reflexivity. Qed.

(** ** The tick *)

Lemma _start_processing_spec c f rest :
  waiting (transaction c) = f :: rest →
  ∃ c', _start_processing c = Ok c'
    ∧ processing (transaction c') = Some (dispatch_of f c)
    ∧ waiting (transaction c') = rest
    ∧ timedout (transaction c') = timedout (transaction c)
    ∧ processing_time (transaction c') = 0.0%float
    ∧ tick_interval (transaction c') = tick_interval (transaction c)
    ∧ max_processing (transaction c') = max_processing (transaction c)
    ∧ ledger_api_dialogues c' = ledger_api_dialogues c ++ [dispatch_of f c]
    ∧ outbox c'
      = outbox c ++ [GET_RAW_TRANSACTION (dialogue_label (dispatch_of f c))
                       (terms f)]
    ∧ strategy c' = strategy c.
Proof.
  intros Hw. unfold _start_processing. rewrite Hw. simpl.
  eexists. split; [reflexivity |]. simpl. by split_and!.
Qed.

Lemma act_idle c :
  processing (transaction c) = None → waiting (transaction c) = [] →
  act c = Ok c.
Proof. intros Hp Hw. unfold act. by rewrite Hp, Hw. Qed.

Lemma act_dispatch c f rest :
  processing (transaction c) = None → waiting (transaction c) = f :: rest →
  act c = _start_processing c.
Proof. intros Hp Hw. unfold act. by rewrite Hp, Hw. Qed.

Lemma act_waiting c p :
  processing (transaction c) = Some p → ¬ overdue c →
  act c = Ok (set_transaction
                (set_processing_time
                   (PrimFloat.add (processing_time (transaction c))
                      (tick_interval (transaction c)))
                   (transaction c)) c).
Proof.
  intros Hp Ho. unfold act, overdue in *. rewrite Hp.
  by destruct (PrimFloat.leb _ _).
Qed.

Lemma act_timeout c p :
  processing (transaction c) = Some p → overdue c →
  act c = _start_processing (_timeout_processing c).
Proof.
  intros Hp Ho. unfold act, overdue in *. rewrite Hp, Ho.
  unfold _timeout_processing. rewrite Hp. simpl.
  rewrite length_app. simpl. case_decide; [lia | done].
Qed.

Lemma _timeout_processing_spec c p :
  processing (transaction c) = Some p →
  let c' := _timeout_processing c in
  processing (transaction c') = None
  ∧ waiting (transaction c')
    = waiting (transaction c) ++ [associated_fipa_dialogue p]
  ∧ timedout (transaction c')
    = {[ dialogue_label p ]} ∪ timedout (transaction c)
  ∧ ledger_api_dialogues c' = ledger_api_dialogues c
  ∧ outbox c' = outbox c.
Proof. intros Hp. unfold _timeout_processing. rewrite Hp. by simpl. Qed.

(** A tick never raises. *)
Lemma act_total c : ∃ c', act c = Ok c'.
Proof.
  destruct (processing (transaction c)) as [p|] eqn:Hp.
  - destruct (PrimFloat.leb (processing_time (transaction c))
                (max_processing (transaction c))) eqn:Ho.
    + eexists. apply (act_waiting c p Hp). unfold overdue. by rewrite Ho.
    + rewrite (act_timeout c p Hp Ho).
      destruct (_timeout_processing_spec c p Hp) as (_ & Hw & _).
      destruct (waiting (transaction c)) as [|f rest] eqn:Hq;
        simpl in Hw;
        destruct (_start_processing_spec _ _ _ Hw) as (c' & E & _);
        by exists c'.
  - destruct (waiting (transaction c)) as [|f rest] eqn:Hw.
    + exists c. by apply act_idle.
    + rewrite (act_dispatch c f rest Hp Hw).
      destruct (_start_processing_spec _ _ _ Hw) as (c' & E & _).
      by exists c'.
Qed.

(** ** Retry on failure *)

(** One submit-and-fail cycle rotates the queue: the head is dispatched,
    fails, and comes back at the tail. *)
Lemma retry_round_spec c f rest :
  processing (transaction c) = None →
  waiting (transaction c) = f :: rest →
  ∃ c', retry_round c = Ok c'
    ∧ processing (transaction c') = None
    ∧ waiting (transaction c') = rest ++ [f]
    ∧ dispatched c' = dispatched c ++ [f].
Proof.
  intros Hp Hw. unfold retry_round.
  rewrite (act_dispatch c f rest Hp Hw).
  destruct (_start_processing_spec c f rest Hw)
    as (c1 & -> & Hp1 & Hw1 & _ & _ & _ & _ & Hs1 & _).
  simpl. rewrite Hp1.
  rewrite (failed_processing_ok _ _ _ (finish_processing_current _ _ Hp1)).
  eexists. split; [reflexivity |]. simpl. rewrite Hw1.
  split_and!; [done | done |].
  unfold dispatched. simpl. by rewrite Hs1, fmap_app.
Qed.

(** C7. Unbounded retry: [failed_processing] is [finish_processing]
    followed, whenever that returns, by an append of the associated request
    to the tail of the queue, with no other change and no counter consulted;
    and a request whose every submission fails is still in the queue after
    any number [n] of submit-and-fail cycles, each of which dispatched one
    request: the queue only rotates. *)
Theorem unbounded_retry :
  (∀ d c c1, finish_processing d c = Ok c1 →
     ∃ c2, failed_processing d c = Ok c2
       ∧ waiting (transaction c2)
         = waiting (transaction c1) ++ [associated_fipa_dialogue d]
       ∧ processing (transaction c2) = processing (transaction c1)
       ∧ processing_time (transaction c2) = processing_time (transaction c1)
       ∧ timedout (transaction c2) = timedout (transaction c1)
       ∧ ledger_api_dialogues c2 = ledger_api_dialogues c1
       ∧ outbox c2 = outbox c1)
  ∧ (∀ n R c,
       processing (transaction c) = None →
       R ∈ waiting (transaction c) →
       ∃ c', retry_rounds n c = Ok c'
         ∧ processing (transaction c') = None
         ∧ R ∈ waiting (transaction c')
         ∧ waiting (transaction c') ≡ₚ waiting (transaction c)
         ∧ length (dispatched c') = length (dispatched c) + n).
Proof.
  split.
  - intros d c c1 E. rewrite (failed_processing_ok d c c1 E).
    eexists. split; [reflexivity |]. by simpl.
  - induction n as [|n IH]; intros R c Hp HR.
    + exists c. simpl. split_and!; try done; lia.
    + destruct (waiting (transaction c)) as [|f rest] eqn:Hw.
      { by apply elem_of_nil in HR. }
      destruct (retry_round_spec c f rest Hp Hw) as (c1 & E & Hp1 & Hw1 & Hd1).
      assert (waiting (transaction c1) ≡ₚ f :: rest) as Hperm.
      { rewrite Hw1. symmetry. apply Permutation_cons_append. }
      assert (R ∈ waiting (transaction c1)) as HR1 by by rewrite Hperm.
      destruct (IH R c1 Hp1 HR1) as (c' & E' & Hp' & HR' & Hperm' & Hlen').
      exists c'. simpl. rewrite E. simpl. split_and!; try done.
      * by rewrite Hperm'.
      * rewrite Hlen', Hd1, length_app. simpl. lia.
Qed.

Lemma unbounded_retry_witness :
  ∃ c', retry_rounds 5 (scenario_start request1) = Ok c'
      ∧ request1 ∈ waiting (transaction c').
Proof.
  destruct (proj2 unbounded_retry 5 request1 (scenario_start request1))
    as (c' & E & _ & HR & _).
  - reflexivity.
  - apply list_elem_of_here.
  - exists c'. split; [exact E | exact HR].
Defined.

(** ** The search gate *)

(** C8. Backpressure gate: on a tick of the search behaviour with searching
    enabled, a non-empty waiting list of the transaction behaviour makes the
    tick put nothing on the outbox, create no search dialogue and log one
    skip record carrying the queue length; an empty one makes it put exactly
    one search request on the outbox, built from the updated strategy; in
    both cases the transaction behaviour, its queue included, is left as it
    was. *)
Theorem backpressure_gate
    (update_search_query_params : GenericStrategy → GenericStrategy)
    (get_location_and_service_query : GenericStrategy → Query)
    (c : Context) :
  is_searching (strategy c) = true →
  let c' := GenericSearchBehaviour.act update_search_query_params
              get_location_and_service_query c in
  transaction c' = transaction c
  ∧ ledger_api_dialogues c' = ledger_api_dialogues c
  ∧ (waiting (transaction c) ≠ [] →
       outbox c' = outbox c
       ∧ oef_search_dialogues c' = oef_search_dialogues c
       ∧ strategy c' = strategy c
       ∧ logger c'
         = logger c
           ++ [(INFO, SkippingSearch (length (waiting (transaction c))))])
  ∧ (waiting (transaction c) = [] →
       outbox c'
       = outbox c
         ++ [SEARCH_SERVICES
               (get_location_and_service_query
                  (update_search_query_params (strategy c)))]
       ∧ length (oef_search_dialogues c')
         = S (length (oef_search_dialogues c))
       ∧ strategy c' = update_search_query_params (strategy c)
       ∧ logger c' = logger c).
Proof.
  intros Hs c'. subst c'. unfold GenericSearchBehaviour.act. rewrite Hs.
  simpl. destruct (waiting (transaction c)) as [|f rest] eqn:Hw; simpl.
  - split_and!; [done | done | done |]. intros _.
    rewrite length_app. simpl. split_and!; [done | lia | done | done].
  - split_and!; [done | done | | done]. intros _. by split_and!.
Qed.

Lemma backpressure_gate_witness :
  outbox (GenericSearchBehaviour.act (λ s, s) search_params
            (set_strategy
               {| is_searching := true; is_in_flight := false;
                  is_c2d_active := false; is_processing := false;
                  has_completed_c2d_job := false; purchased_data := None;
                  search_params := 7 |}
               (scenario_start request1))) = []
  ∧ outbox (GenericSearchBehaviour.act (λ s, s) search_params
              (set_strategy
                 {| is_searching := true; is_in_flight := false;
                    is_c2d_active := false; is_processing := false;
                    has_completed_c2d_job := false; purchased_data := None;
                    search_params := 7 |}
                 (initial 2.0%float 4.0%float))) = [SEARCH_SERVICES 7].
Proof.
  split.
  - refine (proj1 (proj1 (proj2 (proj2
      (backpressure_gate (λ s, s) search_params _ _))) _)).
    + reflexivity.
    + discriminate.
  - refine (proj1 (proj2 (proj2 (proj2
      (backpressure_gate (λ s, s) search_params _ _))) _)).
    + reflexivity.
    + reflexivity.
Defined.

(** ** The compute-job gate *)

Lemma c2d_act_in_flight SENDER_ID c :
  is_in_flight (strategy c) = true → OceanC2DBehaviour.act SENDER_ID c = c.
Proof. intros H. unfold OceanC2DBehaviour.act. by rewrite H. Qed.

(** One invocation either leaves the outbox alone or, starting with the
    flag clear, appends one job envelope and sets the flag. *)
Lemma c2d_act_emits SENDER_ID c :
  outbox (OceanC2DBehaviour.act SENDER_ID c) = outbox c
  ∨ (is_in_flight (strategy c) = false
     ∧ is_in_flight (strategy (OceanC2DBehaviour.act SENDER_ID c)) = true
     ∧ ∃ data, purchased_data (strategy c) = Some data
         ∧ outbox (OceanC2DBehaviour.act SENDER_ID c)
           = outbox c ++ [C2D_JOB "eightballer/ocean:0.1.0" SENDER_ID data]).
Proof.
  unfold OceanC2DBehaviour.act.
  destruct (is_in_flight (strategy c)) eqn:Hf; simpl; [by left |].
  destruct (is_c2d_active (strategy c)); simpl; [| by left].
  destruct (purchased_data (strategy c)) as [data|] eqn:Hd;
    destruct (has_completed_c2d_job (strategy c)) eqn:Hc; simpl;
    rewrite ?Hc; simpl; try by left.
  right. split_and!; [done | done |]. by exists data.
Qed.

(** C9. Compute-job in-flight guard: an invocation of [act] with the
    in-flight flag set changes nothing, so emits no envelope; an invocation
    that does emit an envelope started with the flag clear, emits exactly
    one job-submission envelope and leaves the flag set; hence any number
    of consecutive invocations emits at most one envelope. *)
Theorem c2d_in_flight_guard (SENDER_ID : string) (c : Context) :
  (is_in_flight (strategy c) = true → OceanC2DBehaviour.act SENDER_ID c = c)
  ∧ (outbox (OceanC2DBehaviour.act SENDER_ID c) = outbox c
     ∨ (is_in_flight (strategy c) = false
        ∧ is_in_flight (strategy (OceanC2DBehaviour.act SENDER_ID c)) = true
        ∧ ∃ data, purchased_data (strategy c) = Some data
            ∧ outbox (OceanC2DBehaviour.act SENDER_ID c)
              = outbox c
                ++ [C2D_JOB "eightballer/ocean:0.1.0" SENDER_ID data]))
  ∧ ∀ n, length (outbox (Nat.iter n (OceanC2DBehaviour.act SENDER_ID) c))
         ≤ S (length (outbox c)).
Proof.
  split_and!.
  - apply c2d_act_in_flight.
  - apply c2d_act_emits.
  - intros n.
    assert (outbox (Nat.iter n (OceanC2DBehaviour.act SENDER_ID) c) = outbox c
            ∨ (is_in_flight
                 (strategy (Nat.iter n (OceanC2DBehaviour.act SENDER_ID) c))
               = true
               ∧ length
                   (outbox (Nat.iter n (OceanC2DBehaviour.act SENDER_ID) c))
                 = S (length (outbox c)))) as [-> | [_ ->]]; [| lia | lia].
    induction n as [|n IH]; [by left |]. simpl.
    set (x := Nat.iter n (OceanC2DBehaviour.act SENDER_ID) c) in *.
    destruct IH as [IH | [Hf Hl]].
    + destruct (c2d_act_emits SENDER_ID x) as [E | (_ & Hf' & data & _ & E)].
      * left. by rewrite E.
      * right. split; [done |]. rewrite E, length_app, IH. simpl. lia.
    + right. by rewrite (c2d_act_in_flight SENDER_ID x Hf).
Qed.

(** ** Case analysis of the events *)

Lemma act_cases c c' :
  act c = Ok c' →
  (processing (transaction c) = None ∧ waiting (transaction c) = [] ∧ c' = c)
  ∨ (∃ p, processing (transaction c) = Some p ∧ ¬ overdue c
        ∧ c' = set_transaction
                 (set_processing_time
                    (PrimFloat.add (processing_time (transaction c))
                       (tick_interval (transaction c)))
                    (transaction c)) c)
  ∨ (∃ f rest, processing (transaction c) = None
        ∧ waiting (transaction c) = f :: rest
        ∧ _start_processing c = Ok c')
  ∨ (∃ p, processing (transaction c) = Some p ∧ overdue c
        ∧ _start_processing (_timeout_processing c) = Ok c').
Proof.
  intros E. destruct (processing (transaction c)) as [p|] eqn:Hp.
  - destruct (PrimFloat.leb (processing_time (transaction c))
                (max_processing (transaction c))) eqn:Ho.
    + assert (¬ overdue c) as Hn by (unfold overdue; by rewrite Ho).
      rewrite (act_waiting c p Hp Hn) in E. injection E as <-.
      right. left. by exists p.
    + rewrite (act_timeout c p Hp Ho) in E.
      right. right. right. by exists p.
  - destruct (waiting (transaction c)) as [|f rest] eqn:Hw.
    + rewrite (act_idle c Hp Hw) in E. injection E as <-. by left.
    + rewrite (act_dispatch c f rest Hp Hw) in E.
      right. right. left. by exists f, rest.
Qed.

Lemma finish_processing_cases d c c' :
  finish_processing d c = Ok c' →
  (processing (transaction c) = Some d
   ∧ c' = set_transaction
            (set_processing None
               (set_processing_time 0.0%float (transaction c))) c)
  ∨ (processing (transaction c) ≠ Some d
     ∧ dialogue_label d ∈ timedout (transaction c)
     ∧ c' = log DEBUG (TimeoutDialogue d)
              (set_transaction
                 (set_timedout
                    (timedout (transaction c) ∖ {[ dialogue_label d ]})
                    (transaction c)) c)).
Proof.
  unfold finish_processing. intros E.
  destruct (decide (processing (transaction c) = Some d)) as [Hp | Hp].
  - injection E as <-. by left.
  - destruct (decide (dialogue_label d ∉ timedout (transaction c)))
      as [Hn | Hn]; [discriminate E |].
    injection E as <-. right. split_and!; [done | | done].
    by apply dec_stable.
Qed.

Lemma failed_processing_cases d c c' :
  failed_processing d c = Ok c' →
  ∃ c1, finish_processing d c = Ok c1
    ∧ c' = set_transaction
             (set_waiting
                (waiting (transaction c1) ++ [associated_fipa_dialogue d])
                (transaction c1)) c1.
Proof.
  unfold failed_processing. intros E.
  destruct (finish_processing d c) as [c1|e]; [| discriminate E].
  simpl in E. injection E as <-. by exists c1.
Qed.

(** ** The order of service *)

(** An event leaves the service order alone or extends it at the tail, and
    the dialogue store only grows. *)
Lemma step_order e c c' :
  step e c = Ok c' →
  ∃ new later,
    ledger_api_dialogues c' = ledger_api_dialogues c ++ new
    ∧ served c' = served c ++ later.
Proof.
  unfold served, dispatched. destruct e as [|d|d|f]; simpl; intros E.
  - destruct (act_cases c c' E)
      as [(_ & _ & ->) | [(p & _ & _ & ->) | [(f & rest & _ & Hw & E')
                                             | (p & Hp & _ & E')]]].
    + exists [], []. by rewrite !app_nil_r.
    + exists [], []. simpl. by rewrite !app_nil_r.
    + destruct (_start_processing_spec c f rest Hw)
        as (c1 & E1 & _ & Hw1 & _ & _ & _ & _ & Hs1 & _).
      rewrite E1 in E'. injection E' as <-.
      exists [dispatch_of f c], []. rewrite Hs1, Hw1, Hw, fmap_app. simpl.
      by rewrite app_nil_r, <- app_assoc.
    + destruct (_timeout_processing_spec c p Hp) as (_ & Hw & _ & Hs & _).
      destruct (waiting (_ (_timeout_processing c))) as [|f rest] eqn:Hq.
      { by destruct (waiting (transaction c)). }
      destruct (_start_processing_spec _ f rest Hq)
        as (c1 & E1 & _ & Hw1 & _ & _ & _ & _ & Hs1 & _).
      rewrite E1 in E'. injection E' as <-.
      exists [dispatch_of f (_timeout_processing c)],
             [associated_fipa_dialogue p].
      rewrite Hs1, Hw1, Hs, fmap_app. simpl.
      by rewrite <- !app_assoc, <- Hw.
  - destruct (finish_processing_cases d c c' E) as [[_ ->] | (_ & _ & ->)];
      exists [], []; simpl; by rewrite !app_nil_r.
  - destruct (failed_processing_cases d c c' E) as (c1 & E1 & ->).
    destruct (finish_processing_cases d c c1 E1) as [[_ ->] | (_ & _ & ->)];
      exists [], [associated_fipa_dialogue d]; simpl;
      by rewrite app_nil_r, app_assoc.
  - injection E as <-. exists [], [f]. simpl. by rewrite app_nil_r, app_assoc.
Qed.

Lemma run_order evs c c' :
  run evs c = Ok c' →
  ∃ new later,
    ledger_api_dialogues c' = ledger_api_dialogues c ++ new
    ∧ served c' = served c ++ later.
Proof.
  revert c. induction evs as [|e evs IH]; simpl; intros c E.
  - injection E as <-. exists [], []. by rewrite !app_nil_r.
  - destruct (step e c) as [c1|x] eqn:E1; [| discriminate E]. simpl in E.
    destruct (step_order e c c1 E1) as (new1 & later1 & Hn1 & Hl1).
    destruct (IH c1 E) as (new2 & later2 & Hn2 & Hl2).
    exists (new1 ++ new2), (later1 ++ later2).
    by rewrite Hn2, Hn1, Hl2, Hl1, <- !app_assoc.
Qed.

(** The requests dispatched between two states of a run, and what they
    leave waiting, spell out the service order fixed at the first state. *)
Lemma run_since evs c c' :
  run evs c = Ok c' →
  ∃ since later,
    dispatched c' = dispatched c ++ since
    ∧ since ++ waiting (transaction c') = waiting (transaction c) ++ later.
Proof.
  intros E. destruct (run_order evs c c' E) as (new & later & Hn & Hl).
  exists (associated_fipa_dialogue <$> new), later.
  assert (dispatched c' = dispatched c ++ (associated_fipa_dialogue <$> new))
    as Hd by (unfold dispatched; by rewrite Hn, fmap_app).
  split; [done |]. unfold served in Hl. rewrite Hd, <- !app_assoc in Hl.
  by apply app_inv_head in Hl.
Qed.

(** A prefix of dispatches that contains a request can only reach it after
    everything queued ahead of it. *)
Lemma behind_the_queue (R : FipaDialogue)
    (ahead since w later : list FipaDialogue) (i : nat) :
  since ++ w = ahead ++ R :: later →
  R ∉ ahead →
  since !! i = Some R →
  length ahead ≤ i ∧ take (length ahead) since = ahead.
Proof.
  intros E Hn Hi.
  assert (length ahead ≤ i) as Hle.
  { destruct (decide (length ahead ≤ i)) as [|Hlt]; [done |].
    exfalso. apply Hn.
    apply (lookup_app_l_Some _ w) in Hi. rewrite E in Hi.
    rewrite lookup_app_l in Hi by lia.
    by apply list_elem_of_lookup_2 in Hi. }
  split; [done |]. apply lookup_lt_Some in Hi.
  rewrite <- (take_app_le since w) by lia.
  rewrite E. apply take_app_length.
Qed.

(** C4. FIFO with timeout-demotion: when the slot holds a dispatch of R1
    whose budget is used up and R2, R3 and possibly more requests are
    waiting in that order, the next tick times R1 out, puts it at the tail
    and dispatches R2; and whatever events follow (ticks, completions of
    any kind, new deals), the requests dispatched from that tick on follow
    the order R2, R3, the other waiters, R1: a redispatch of R1 has all of
    them before it, in that order. *)
Theorem fifo_timeout_demotion (c : Context) (d1 : LedgerApiDialogue)
    (R2 R3 : FipaDialogue) (more : list FipaDialogue) :
  processing (transaction c) = Some d1 →
  overdue c →
  waiting (transaction c) = R2 :: R3 :: more →
  ∃ c1, act c = Ok c1
    ∧ dialogue_label d1 ∈ timedout (transaction c1)
    ∧ processing (transaction c1) = Some (dispatch_of R2 c)
    ∧ dispatched c1 = dispatched c ++ [R2]
    ∧ waiting (transaction c1) = R3 :: more ++ [associated_fipa_dialogue d1]
    ∧ ∀ evs c2, run evs c1 = Ok c2 →
        ∃ since later,
          dispatched c2 = dispatched c ++ R2 :: since
          ∧ (R2 :: since) ++ waiting (transaction c2)
            = (R2 :: R3 :: more) ++ associated_fipa_dialogue d1 :: later
          ∧ (associated_fipa_dialogue d1 ∉ R2 :: R3 :: more →
             ∀ i, (R2 :: since) !! i = Some (associated_fipa_dialogue d1) →
                  length (R2 :: R3 :: more) ≤ i
                  ∧ take (length (R2 :: R3 :: more)) (R2 :: since)
                    = R2 :: R3 :: more).
Proof.
  intros Hp Ho Hw. rewrite (act_timeout c d1 Hp Ho).
  destruct (_timeout_processing_spec c d1 Hp) as (_ & Hwt & Htt & Hst & _).
  rewrite Hw in Hwt. simpl in Hwt.
  destruct (_start_processing_spec _ _ _ Hwt)
    as (c1 & E1 & Hp1 & Hw1 & Ht1 & _ & _ & _ & Hs1 & _).
  assert (dispatched c1 = dispatched c ++ [R2]) as Hd1.
  { unfold dispatched. by rewrite Hs1, Hst, fmap_app. }
  exists c1. split_and!; try done.
  - rewrite Ht1, Htt. apply elem_of_union_l. by apply elem_of_singleton.
  - rewrite Hp1. unfold dispatch_of. by rewrite Hst.
  - intros evs c2 E2.
    destruct (run_since evs c1 c2 E2) as (since & later & Hd2 & Hl2).
    exists since, later.
    assert ((R2 :: since) ++ waiting (transaction c2)
            = (R2 :: R3 :: more) ++ associated_fipa_dialogue d1 :: later)
      as Hq.
    { simpl. rewrite Hl2, Hw1. simpl. by rewrite <- app_assoc. }
    split_and!; [by rewrite Hd2, Hd1, <- app_assoc | done |].
    intros Hn i Hi. by apply (behind_the_queue _ _ _ _ _ _ Hq Hn Hi).
Qed.

Lemma fifo_timeout_demotion_witness :
  ∃ c1, act stalled = Ok c1
      ∧ processing (transaction c1) = Some (dialogue 2 request2)
      ∧ waiting (transaction c1) = [request3; request1].
Proof.
  destruct (fifo_timeout_demotion stalled (dialogue 1 request1)
              request2 request3 [])
    as (c1 & E & _ & Hp1 & _ & Hw1 & _).
  - reflexivity.
  - reflexivity.
  - reflexivity.
  - exists c1. split_and!; [exact E | rewrite Hp1 | rewrite Hw1];
      vm_compute; reflexivity.
Defined.

(** ** Draining the queue *)

Lemma serve_round_spec c f rest :
  waiting (transaction c) = f :: rest →
  ∃ c', serve_round c = Ok c'
    ∧ waiting (transaction c') = rest
    ∧ dispatched c' = dispatched c ++ [f].
Proof.
  intros Hw. unfold serve_round.
  assert (∃ c0, match processing (transaction c) with
                | Some d => finish_processing d c
                | None => Ok c
                end = Ok c0
              ∧ processing (transaction c0) = None
              ∧ waiting (transaction c0) = f :: rest
              ∧ ledger_api_dialogues c0 = ledger_api_dialogues c)
    as (c0 & -> & Hp0 & Hw0 & Hs0).
  { destruct (processing (transaction c)) as [d|] eqn:Hp.
    - rewrite (finish_processing_current d c Hp). eexists.
      split; [reflexivity |]. by simpl.
    - by exists c. }
  simpl. rewrite (act_dispatch c0 f rest Hp0 Hw0).
  destruct (_start_processing_spec c0 f rest Hw0)
    as (c' & E & _ & Hw' & _ & _ & _ & _ & Hs' & _).
  exists c'. split_and!; [done | done |].
  unfold dispatched. by rewrite Hs', Hs0, fmap_app.
Qed.

(** Serving [k] rounds dispatches the first [k] waiting requests in queue
    order. *)
Lemma serve_rounds_spec k c :
  k ≤ length (waiting (transaction c)) →
  ∃ c', serve_rounds k c = Ok c'
    ∧ waiting (transaction c') = drop k (waiting (transaction c))
    ∧ dispatched c' = dispatched c ++ take k (waiting (transaction c)).
Proof.
  revert c. induction k as [|k IH]; intros c Hk.
  - exists c. simpl. by rewrite drop_0, app_nil_r.
  - destruct (waiting (transaction c)) as [|f rest] eqn:Hw;
      simpl in Hk; [lia |].
    destruct (serve_round_spec c f rest Hw) as (c1 & E1 & Hw1 & Hd1).
    destruct (IH c1) as (c' & E' & Hw' & Hd'); [rewrite Hw1; lia |].
    exists c'. simpl. rewrite E1. simpl. split_and!; [done | |].
    + by rewrite Hw', Hw1.
    + by rewrite Hd', Hd1, Hw1, <- app_assoc.
Qed.

(** ** A failure after a timeout *)

(** A failure completion whose token is in the timed-out set is always
    placed, and appends the request to the queue. *)
Lemma failed_processing_timedout d c :
  dialogue_label d ∈ timedout (transaction c) →
  ∃ c2, failed_processing d c = Ok c2
    ∧ waiting (transaction c2)
      = waiting (transaction c) ++ [associated_fipa_dialogue d]
    ∧ ledger_api_dialogues c2 = ledger_api_dialogues c.
Proof.
  intros Hin.
  assert (∃ c1, finish_processing d c = Ok c1
              ∧ waiting (transaction c1) = waiting (transaction c)
              ∧ ledger_api_dialogues c1 = ledger_api_dialogues c)
    as (c1 & E1 & Hw1 & Hs1).
  { unfold finish_processing.
    destruct (decide (processing (transaction c) = Some d)).
    - eexists. split; [reflexivity |]. by simpl.
    - rewrite decide_False by tauto. eexists. split; [reflexivity |].
      by simpl. }
  rewrite (failed_processing_ok d c c1 E1). eexists.
  split; [reflexivity |]. simpl. by rewrite Hw1, Hs1.
Qed.

(** C10, as the code has it. When a dispatch of request R times out, the
    tick appends R to the queue; a failure completion for that dispatch
    that arrives later, while its token is still in the timed-out set,
    appends R once more, so R stands twice in the service order for the
    one timed-out dispatch and is dispatched twice as the queue drains.
    Whether both copies are in the queue at that moment depends on the
    tick: arriving right after it, the failure finds two copies waiting
    when other requests were ahead of R, and a single copy when the queue
    was empty, because the tick itself has already dispatched the other. *)
Theorem timeout_then_failure_requeues_twice
    (c : Context) (d1 : LedgerApiDialogue) :
  processing (transaction c) = Some d1 →
  overdue c →
  ∃ c1, act c = Ok c1
    ∧ dialogue_label d1 ∈ timedout (transaction c1)
    ∧ served c1 = served c ++ [associated_fipa_dialogue d1]
    ∧ (∀ evs c1', run evs c1 = Ok c1' →
         dialogue_label d1 ∈ timedout (transaction c1') →
         ∃ c2 between c3,
           failed_processing d1 c1' = Ok c2
           ∧ waiting (transaction c2)
             = waiting (transaction c1') ++ [associated_fipa_dialogue d1]
           ∧ served c2
             = served c ++ associated_fipa_dialogue d1
                 :: between ++ [associated_fipa_dialogue d1]
           ∧ serve_rounds (length (waiting (transaction c2))) c2 = Ok c3
           ∧ dispatched c3 = served c2)
    ∧ ∃ c2, failed_processing d1 c1 = Ok c2
        ∧ (∀ f rest, waiting (transaction c) = f :: rest →
             waiting (transaction c2)
             = rest ++ [associated_fipa_dialogue d1;
                        associated_fipa_dialogue d1])
        ∧ (waiting (transaction c) = [] →
             waiting (transaction c2) = [associated_fipa_dialogue d1]
             ∧ dispatched c2
               = dispatched c ++ [associated_fipa_dialogue d1]).
Proof.
  intros Hp Ho. rewrite (act_timeout c d1 Hp Ho).
  destruct (_timeout_processing_spec c d1 Hp) as (_ & Hwt & Htt & Hst & _).
  destruct (waiting (transaction (_timeout_processing c)))
    as [|f0 rest0] eqn:Hq.
  { by destruct (waiting (transaction c)). }
  destruct (_start_processing_spec _ _ _ Hq)
    as (c1 & E1 & _ & Hw1 & Ht1 & _ & _ & _ & Hs1 & _).
  assert (dialogue_label d1 ∈ timedout (transaction c1)) as Hin1.
  { rewrite Ht1, Htt. apply elem_of_union_l. by apply elem_of_singleton. }
  assert (served c1 = served c ++ [associated_fipa_dialogue d1]) as Hsv1.
  { unfold served, dispatched. rewrite Hs1, Hw1, Hst, fmap_app. simpl.
    by rewrite <- !app_assoc, <- Hwt. }
  exists c1. split_and!; [done | done | done | |].
  - intros evs c1' E' Hin'.
    destruct (failed_processing_timedout d1 c1' Hin') as (c2 & E2 & Hw2 & Hs2).
    destruct (run_order evs c1 c1' E') as (new & between & _ & Hsv').
    destruct (serve_rounds_spec (length (waiting (transaction c2))) c2)
      as (c3 & E3 & _ & Hd3); [done |].
    exists c2, between, c3. split_and!; [done | done | | done |].
    + unfold served, dispatched in *. rewrite Hs2, Hw2, app_assoc, Hsv', Hsv1.
      by rewrite <- !app_assoc.
    + by rewrite Hd3, firstn_all.
  - destruct (failed_processing_timedout d1 c1 Hin1) as (c2 & E2 & Hw2 & Hs2).
    exists c2. split; [done |]. rewrite Hw2, Hw1. split.
    + intros f rest Hw. rewrite Hw in Hwt. simpl in Hwt.
      injection Hwt as _ ->. by rewrite <- app_assoc.
    + intros Hw. rewrite Hw in Hwt. simpl in Hwt. injection Hwt as -> ->.
      split; [done |]. unfold dispatched.
      by rewrite Hs2, Hs1, Hst, fmap_app.
Qed.

Lemma timeout_then_failure_requeues_twice_witness :
  ∃ c1 c2, act stalled = Ok c1
         ∧ failed_processing (dialogue 1 request1) c1 = Ok c2
         ∧ waiting (transaction c2) = [request3; request1; request1].
Proof.
  destruct (timeout_then_failure_requeues_twice stalled (dialogue 1 request1))
    as (c1 & E1 & _ & _ & _ & c2 & E2 & Hw2 & _).
  - reflexivity.
  - reflexivity.
  - exists c1, c2. split_and!; [exact E1 | exact E2 |].
    apply (Hw2 request2 [request3]). reflexivity.
Defined.

(** C10 fails on the code when nothing else is waiting: the tick that times
    the dispatch out also dispatches the request again, so after the late
    failure the request stands once in the queue, not twice. *)
Lemma timeout_then_failure_counterexample :
  ∃ c1 c2, act expiring = Ok c1
         ∧ timedout (transaction c1) = {[ 1 ]}
         ∧ failed_processing (dialogue 1 request1) c1 = Ok c2
         ∧ waiting (transaction c2) = [request1]
         ∧ processing (transaction c2) = Some (dialogue 2 request1).
Proof. do 2 eexists. split_and!; vm_compute; reflexivity. Qed.

(** ** One request in flight *)

Lemma fresh_label_fresh store :
  fresh_label store ∉ dialogue_label <$> store.
Proof.
  intros H. apply max_list_elem_of_le in H. unfold fresh_label in H. lia.
Qed.

Lemma well_formed_initial tx_interval max_proc :
  well_formed (initial tx_interval max_proc).
Proof.
  split; simpl.
  - done.
  - intros l Hl. by apply not_elem_of_empty in Hl.
  - done.
  - apply NoDup_nil_2.
  - done.
Qed.

(** Events that create no dialogue, send nothing, put nothing new in the
    slot and time nothing out keep the bookkeeping. *)
Lemma well_formed_quiet c c' :
  well_formed c →
  ledger_api_dialogues c' = ledger_api_dialogues c →
  outbox c' = outbox c →
  (∀ d, processing (transaction c') = Some d →
        processing (transaction c) = Some d) →
  timedout (transaction c') ⊆ timedout (transaction c) →
  well_formed c'.
Proof.
  intros [H1 H2 H3 H4 H5] Hs Ho Hp Ht. split.
  - intros d Hd. rewrite Hs. by apply H1, Hp.
  - intros l Hl. unfold labels. rewrite Hs. by apply H2, Ht.
  - intros d Hd Hl. by apply (H3 d (Hp d Hd)), Ht.
  - unfold labels. by rewrite Hs.
  - unfold ledger_requests. by rewrite Ho, Hs.
Qed.

Lemma well_formed_timeout c p :
  well_formed c → processing (transaction c) = Some p →
  well_formed (_timeout_processing c).
Proof.
  intros [H1 H2 H3 H4 H5] Hp.
  destruct (_timeout_processing_spec c p Hp) as (Hp' & _ & Ht' & Hs' & Ho').
  split.
  - intros d Hd. by rewrite Hp' in Hd.
  - intros l. rewrite Ht'. unfold labels. rewrite Hs'.
    intros [Hl | Hl]%elem_of_union; [| by apply H2].
    apply elem_of_singleton in Hl as ->.
    apply list_elem_of_fmap_2, last_Some_elem_of. by apply H1.
  - intros d Hd. by rewrite Hp' in Hd.
  - unfold labels. by rewrite Hs'.
  - unfold ledger_requests. by rewrite Ho', Hs'.
Qed.

Lemma well_formed_start c f rest c' :
  well_formed c → waiting (transaction c) = f :: rest →
  _start_processing c = Ok c' → well_formed c'.
Proof.
  intros [H1 H2 H3 H4 H5] Hw E.
  destruct (_start_processing_spec c f rest Hw)
    as (c1 & E1 & Hp1 & _ & Ht1 & _ & _ & _ & Hs1 & Ho1 & _).
  rewrite E1 in E. injection E as <-.
  pose proof (fresh_label_fresh (ledger_api_dialogues c)) as Hfresh.
  split.
  - intros d Hd. rewrite Hp1 in Hd. injection Hd as <-.
    rewrite Hs1. apply last_snoc.
  - intros l Hl. unfold labels. rewrite Hs1, fmap_app.
    apply elem_of_app. left. apply H2. by rewrite <- Ht1.
  - intros d Hd Hl. rewrite Hp1 in Hd. injection Hd as <-.
    rewrite Ht1 in Hl. by apply Hfresh, H2.
  - unfold labels. rewrite Hs1, fmap_app. apply NoDup_app.
    split_and!; [done | | apply NoDup_singleton].
    intros l Hl Hl'. apply list_elem_of_singleton in Hl' as ->.
    by apply Hfresh.
  - unfold ledger_requests in *. rewrite Ho1, Hs1, filter_app, fmap_app, H5.
    done.
Qed.

Lemma well_formed_finish d c c' :
  well_formed c → finish_processing d c = Ok c' → well_formed c'.
Proof.
  intros Hwf E.
  destruct (finish_processing_cases d c c' E) as [[_ ->] | (_ & _ & ->)];
    apply (well_formed_quiet c); try done; simpl.
  apply subseteq_difference_l. done.
Qed.

Lemma well_formed_step e c c' :
  well_formed c → step e c = Ok c' → well_formed c'.
Proof.
  intros Hwf. destruct e as [|d|d|f]; simpl; intros E.
  - destruct (act_cases c c' E)
      as [(_ & _ & ->) | [(p & _ & _ & ->) | [(f & rest & _ & Hw & E')
                                             | (p & Hp & _ & E')]]].
    + done.
    + by apply (well_formed_quiet c).
    + by apply (well_formed_start c f rest).
    + destruct (_timeout_processing_spec c p Hp) as (_ & Hw & _).
      destruct (waiting (_ (_timeout_processing c))) as [|f rest] eqn:Hq.
      { by destruct (waiting (transaction c)). }
      apply (well_formed_start (_timeout_processing c) f rest); try done.
      by apply (well_formed_timeout c p).
  - by apply (well_formed_finish d c).
  - destruct (failed_processing_cases d c c' E) as (c1 & E1 & ->).
    apply (well_formed_quiet c1); try done.
    by apply (well_formed_finish d c).
  - injection E as <-. by apply (well_formed_quiet c).
Qed.

Lemma well_formed_run evs c c' :
  well_formed c → run evs c = Ok c' → well_formed c'.
Proof.
  revert c. induction evs as [|e evs IH]; simpl; intros c Hwf E.
  - by injection E as <-.
  - destruct (step e c) as [c1|x] eqn:E1; [| discriminate E].
    apply (IH c1); [| done]. by apply (well_formed_step e c).
Qed.

(** An event sends at most one ledger request, and only a tick that
    finds the slot empty, or has just emptied it by a timeout, sends one. *)
Lemma step_requests e c c' :
  step e c = Ok c' →
  ledger_requests c' = ledger_requests c
  ∨ (e = Tick
     ∧ ∃ mid f,
         (mid = c ∨ (overdue c ∧ mid = _timeout_processing c))
         ∧ processing (transaction mid) = None
         ∧ _start_processing mid = Ok c'
         ∧ dispatch_slots c' = [dispatch_of f mid]
         ∧ ledger_requests c'
           = ledger_requests c ++ [request_of (dispatch_of f mid)]).
Proof.
  assert (∀ mid f rest, waiting (transaction mid) = f :: rest →
            _start_processing mid = Ok c' →
            dispatch_slots c' = [dispatch_of f mid]
            ∧ ledger_requests c'
              = ledger_requests mid ++ [request_of (dispatch_of f mid)])
    as Hstart.
  { intros mid f rest Hw E.
    destruct (_start_processing_spec mid f rest Hw)
      as (c1 & E1 & Hp1 & _ & _ & _ & _ & _ & _ & Ho1 & _).
    rewrite E1 in E. injection E as <-. unfold dispatch_slots, ledger_requests.
    by rewrite Hp1, Ho1, filter_app. }
  destruct e as [|d|d|f]; simpl; intros E.
  - destruct (act_cases c c' E)
      as [(_ & _ & ->) | [(p & _ & _ & ->) | [(f & rest & Hp & Hw & E')
                                             | (p & Hp & Ho & E')]]].
    + by left.
    + by left.
    + right. split; [done |]. exists c, f.
      destruct (Hstart c f rest Hw E') as [Hslot Hreq].
      split_and!; try done. by left.
    + destruct (_timeout_processing_spec c p Hp) as (Hp' & Hw & _ & _ & Ho').
      destruct (waiting (_ (_timeout_processing c))) as [|f rest] eqn:Hq.
      { by destruct (waiting (transaction c)). }
      right. split; [done |]. exists (_timeout_processing c), f.
      destruct (Hstart _ f rest Hq E') as [Hslot Hreq].
      split_and!; try done; [by right |].
      rewrite Hreq. unfold ledger_requests. by rewrite Ho'.
  - destruct (finish_processing_cases d c c' E) as [[_ ->] | (_ & _ & ->)];
      by left.
  - destruct (failed_processing_cases d c c' E) as (c1 & E1 & ->).
    destruct (finish_processing_cases d c c1 E1) as [[_ ->] | (_ & _ & ->)];
      by left.
  - injection E as <-. by left.
Qed.

(** C1. Single in-flight invariant: at every state a sequence of ticks,
    completions and new deals reaches from a freshly built behaviour, there
    is at most one dispatch slot, the slot holds the ledger dialogue created
    last and its token is not timed out, and as many ledger requests were
    sent as dialogues created; and from such a state an event sends at most
    one ledger request, only on a tick and only from a state whose slot is
    empty: the state as it is, or as the timeout of an overdue slot in the
    same tick has just left it. *)
Theorem single_in_flight (tx_interval max_proc : float)
    (evs : list Event) (c : Context) :
  run evs (initial tx_interval max_proc) = Ok c →
  length (dispatch_slots c) ≤ 1
  ∧ (∀ d, d ∈ dispatch_slots c →
       last (ledger_api_dialogues c) = Some d
       ∧ dialogue_label d ∉ timedout (transaction c))
  ∧ length (ledger_requests c) = length (ledger_api_dialogues c)
  ∧ ∀ e c', step e c = Ok c' →
      ledger_requests c' = ledger_requests c
      ∨ (e = Tick
         ∧ ∃ mid f,
             (mid = c ∨ (overdue c ∧ mid = _timeout_processing c))
             ∧ processing (transaction mid) = None
             ∧ _start_processing mid = Ok c'
             ∧ dispatch_slots c' = [dispatch_of f mid]
             ∧ ledger_requests c'
               = ledger_requests c ++ [request_of (dispatch_of f mid)]).
Proof.
  intros E.
  pose proof (well_formed_run evs _ c
                (well_formed_initial tx_interval max_proc) E)
    as [H1 H2 H3 H4 H5].
  split_and!.
  - unfold dispatch_slots. destruct (processing (transaction c)); simpl; lia.
  - unfold dispatch_slots. intros d Hd.
    destruct (processing (transaction c)) as [p|] eqn:Hp; simpl in Hd.
    + apply list_elem_of_singleton in Hd as ->. split; [by apply H1 |].
      by apply H3.
    + by apply elem_of_nil in Hd.
  - by rewrite H5, length_fmap.
  - intros e c'. apply step_requests.
Qed.

Lemma single_in_flight_witness :
  length (dispatch_slots redispatched) ≤ 1
  ∧ length (ledger_requests redispatched) = 2.
Proof.
  destruct (single_in_flight 2.0%float 4.0%float
              (Enqueue request1 :: replicate 5 Tick) redispatched)
    as (Hslots & _ & Hreq & _).
  - vm_compute. reflexivity.
  - split; [exact Hslots |]. rewrite Hreq. vm_compute. reflexivity.
Defined.

(** * Further properties of the behaviours *)

(** ** Ticks *)

(** X1. Ticks never raise: [_start_processing] on its own raises
    [IndexError] when the queue is empty, but [act] reaches it only with a
    request waiting, also right after a timeout, so any number of ticks
    from any state returns normally. *)
Theorem ticks_never_raise :
  (∀ c, waiting (transaction c) = [] → _start_processing c = Raise IndexError)
  ∧ ∀ n c, ∃ c', run (replicate n Tick) c = Ok c'.
Proof.
  split.
  - intros c Hw. unfold _start_processing. by rewrite Hw.
  - induction n as [|n IH]; intros c; simpl.
    + by exists c.
    + destruct (act_total c) as (c1 & ->). simpl. apply IH.
Qed.

(** X2. Strict FIFO: serving the queue, a success completion for the slot
    followed by a tick, once per waiting request, never raises, dispatches
    exactly the waiting requests in queue order and leaves the queue
    empty. *)
Theorem fifo_drain (c : Context) :
  ∃ c', serve_rounds (length (waiting (transaction c))) c = Ok c'
      ∧ waiting (transaction c') = []
      ∧ dispatched c' = dispatched c ++ waiting (transaction c).
Proof.
  destruct (serve_rounds_spec (length (waiting (transaction c))) c)
    as (c' & E & Hw & Hd); [done |].
  exists c'. split_and!; [done | |].
  - by rewrite Hw, drop_all.
  - by rewrite Hd, firstn_all.
Qed.

(** X3. No request is lost: whatever the events (timeouts, successes,
    failures), a request that was in the service order at the start, or that
    an enqueue of the run brought in, is in the service order at the end,
    that is, it was dispatched or is still waiting. *)
Theorem enqueued_never_lost (evs : list Event) (c0 c : Context)
    (f : FipaDialogue) :
  run evs c0 = Ok c →
  f ∈ served c0 ∨ Enqueue f ∈ evs →
  f ∈ served c.
Proof.
  revert c0. induction evs as [|e evs IH]; simpl; intros c0 E Hf.
  - injection E as <-. destruct Hf as [Hf | Hf]; [done |].
    by apply elem_of_nil in Hf.
  - destruct (step e c0) as [c1|x] eqn:E1; [| discriminate E]. simpl in E.
    destruct (step_order e c0 c1 E1) as (new & later & _ & Hl).
    apply (IH c1 E). destruct Hf as [Hf | Hf].
    + left. rewrite Hl. apply elem_of_app. by left.
    + apply elem_of_cons in Hf as [<- | Hf]; [| by right].
      left. simpl in E1. injection E1 as <-. unfold served. simpl.
      rewrite !elem_of_app. right. right. apply list_elem_of_here.
Qed.

Lemma enqueued_never_lost_witness :
  request2 ∈ served
    (after [Enqueue request2; Tick; Failed (dialogue 2 request1)]
       redispatched).
Proof.
  apply (enqueued_never_lost
           [Enqueue request2; Tick; Failed (dialogue 2 request1)]
           redispatched).
  - vm_compute. reflexivity.
  - right. apply list_elem_of_here.
Defined.

Lemma step_idle_elapsed e c c' :
  (processing (transaction c) = None →
   processing_time (transaction c) = 0.0%float) →
  step e c = Ok c' →
  processing (transaction c') = None →
  processing_time (transaction c') = 0.0%float.
Proof.
  intros Hinv. destruct e as [|d|d|f]; simpl; intros E.
  - destruct (act_cases c c' E)
      as [(_ & _ & ->) | [(p & Hp & _ & ->) | [(f & rest & _ & Hw & E')
                                              | (p & Hp & _ & E')]]].
    + done.
    + simpl. by rewrite Hp.
    + destruct (_start_processing_spec c f rest Hw) as (c1 & E1 & Hp1 & _).
      rewrite E1 in E'. injection E' as <-. by rewrite Hp1.
    + destruct (_timeout_processing_spec c p Hp) as (_ & Hw & _).
      destruct (waiting (_ (_timeout_processing c))) as [|f rest] eqn:Hq.
      { by destruct (waiting (transaction c)). }
      destruct (_start_processing_spec _ f rest Hq) as (c1 & E1 & Hp1 & _).
      rewrite E1 in E'. injection E' as <-. by rewrite Hp1.
  - by destruct (finish_processing_cases d c c' E) as [[_ ->] | (_ & _ & ->)].
  - destruct (failed_processing_cases d c c' E) as (c1 & E1 & ->).
    by destruct (finish_processing_cases d c c1 E1)
      as [[_ ->] | (_ & _ & ->)].
  - by injection E as <-.
Qed.

(** X4. An empty slot has no elapsed time: at every state reached from a
    freshly built behaviour, [processing_time] is 0.0 whenever [processing]
    is empty; timeouts and matched completions reset it, late completions
    leave it alone. *)
Theorem idle_slot_has_zero_elapsed (tx_interval max_proc : float)
    (evs : list Event) (c : Context) :
  run evs (initial tx_interval max_proc) = Ok c →
  processing (transaction c) = None →
  processing_time (transaction c) = 0.0%float.
Proof.
  assert (∀ c0, (processing (transaction c0) = None →
                 processing_time (transaction c0) = 0.0%float) →
                run evs c0 = Ok c →
                processing (transaction c) = None →
                processing_time (transaction c) = 0.0%float) as Hrun.
  { induction evs as [|e evs IH]; simpl; intros c0 Hinv E.
    - by injection E as <-.
    - destruct (step e c0) as [c1|x] eqn:E1; [| discriminate E].
      apply (IH c1); [| done]. by apply (step_idle_elapsed e c0). }
  by apply Hrun.
Qed.

Lemma idle_slot_has_zero_elapsed_witness :
  processing_time
    (transaction
       (after [Enqueue request1; Tick; Tick;
               Finish (dialogue 1 request1)]
          (initial 2.0%float 4.0%float))) = 0.0%float.
Proof.
  apply (idle_slot_has_zero_elapsed 2.0%float 4.0%float
           [Enqueue request1; Tick; Tick; Finish (dialogue 1 request1)]).
  - vm_compute. reflexivity.
  - vm_compute. reflexivity.
Defined.

(** X5. A timeout is local and idempotent: [_timeout_processing] sends
    nothing (no cancellation goes to the ledger connection), creates no
    dialogue and logs nothing; it leaves the slot empty, changes nothing at
    all when the slot is empty already, and so changes nothing when
    repeated. *)
Theorem timeout_is_local_and_idempotent (c : Context) :
  outbox (_timeout_processing c) = outbox c
  ∧ ledger_api_dialogues (_timeout_processing c) = ledger_api_dialogues c
  ∧ logger (_timeout_processing c) = logger c
  ∧ strategy (_timeout_processing c) = strategy c
  ∧ processing (transaction (_timeout_processing c)) = None
  ∧ (processing (transaction c) = None → _timeout_processing c = c)
  ∧ _timeout_processing (_timeout_processing c) = _timeout_processing c.
Proof.
  assert (∀ c0, processing (transaction c0) = None →
                _timeout_processing c0 = c0) as Hidle.
  { intros c0 H0. unfold _timeout_processing. by rewrite H0. }
  assert (processing (transaction (_timeout_processing c)) = None) as Hnone.
  { unfold _timeout_processing.
    by destruct (processing (transaction c)) eqn:Hp. }
  split_and!; try done; try by apply Hidle.
  all: unfold _timeout_processing; by destruct (processing (transaction c)).
Qed.

(** ** Waiting for the budget to run out *)

Lemma elapsed_after_tick k c :
  elapsed_after k
    (set_transaction
       (set_processing_time
          (PrimFloat.add (processing_time (transaction c))
             (tick_interval (transaction c)))
          (transaction c)) c)
  = elapsed_after (S k) c.
Proof.
  exact (eq_sym
           (Nat.iter_succ_r k
              (λ t, PrimFloat.add t (tick_interval (transaction c)))
              (processing_time (transaction c)))).
Qed.

(** As long as every tick finds the elapsed time within budget, ticks only
    add tick intervals to it. *)
Lemma run_waiting_ticks n c p :
  processing (transaction c) = Some p →
  (∀ k, k < n →
     PrimFloat.leb (elapsed_after k c) (max_processing (transaction c))
     = true) →
  ∃ c', run (replicate n Tick) c = Ok c'
    ∧ processing_time (transaction c') = elapsed_after n c
    ∧ processing (transaction c') = Some p
    ∧ waiting (transaction c') = waiting (transaction c)
    ∧ timedout (transaction c') = timedout (transaction c)
    ∧ max_processing (transaction c') = max_processing (transaction c)
    ∧ ledger_api_dialogues c' = ledger_api_dialogues c
    ∧ outbox c' = outbox c.
Proof.
  revert c. induction n as [|n IH]; intros c Hp Hk.
  - exists c. by split_and!.
  - assert (¬ overdue c) as Hn.
    { unfold overdue. specialize (Hk 0). unfold elapsed_after in Hk.
      simpl in Hk. rewrite Hk by lia. done. }
    pose proof (act_waiting c p Hp Hn) as E.
    set (c1 := set_transaction _ c) in E.
    destruct (IH c1) as (c' & E' & Ht' & Hp' & Hw' & Hto' & Hm' & Hs' & Ho').
    { done. }
    { intros k Hlt. unfold c1. rewrite elapsed_after_tick.
      apply Hk. lia. }
    exists c'. rewrite replicate_S. simpl. rewrite E. simpl.
    split_and!; try done.
    rewrite Ht'. apply elapsed_after_tick.
Qed.

(** X6. Timeout latency: a dispatch stays in the slot, with nothing sent
    and the queue and timed-out set untouched, through every tick that
    finds the accumulated elapsed time (tick intervals added in floating
    point) within [max_processing]; the first tick that finds it above
    times the dispatch out: its token enters the timed-out set and its
    request goes to the tail of the service order. *)
Theorem timeout_latency (n : nat) (c : Context) (p : LedgerApiDialogue) :
  processing (transaction c) = Some p →
  (∀ k, k < n →
     PrimFloat.leb (elapsed_after k c) (max_processing (transaction c))
     = true) →
  ∃ c', run (replicate n Tick) c = Ok c'
    ∧ processing_time (transaction c') = elapsed_after n c
    ∧ processing (transaction c') = Some p
    ∧ waiting (transaction c') = waiting (transaction c)
    ∧ timedout (transaction c') = timedout (transaction c)
    ∧ outbox c' = outbox c
    ∧ (PrimFloat.leb (elapsed_after n c) (max_processing (transaction c))
       = false →
       ∃ c'', act c' = Ok c''
         ∧ dialogue_label p ∈ timedout (transaction c'')
         ∧ served c'' = served c ++ [associated_fipa_dialogue p]).
Proof.
  intros Hp Hk.
  destruct (run_waiting_ticks n c p Hp Hk)
    as (c' & E & Ht & Hp' & Hw & Hto & Hm & Hs & Ho).
  exists c'. split_and!; try done. intros Hover.
  assert (overdue c') as Hod by (unfold overdue; by rewrite Ht, Hm).
  rewrite (act_timeout c' p Hp' Hod).
  destruct (_timeout_processing_spec c' p Hp') as (_ & Hwt & Htt & Hst & _).
  destruct (waiting (transaction (_timeout_processing c')))
    as [|f rest] eqn:Hq.
  { by destruct (waiting (transaction c')). }
  destruct (_start_processing_spec _ _ _ Hq)
    as (c2 & E2 & _ & Hw2 & Ht2 & _ & _ & _ & Hs2 & _).
  exists c2. split_and!; [done | |].
  - rewrite Ht2, Htt. apply elem_of_union_l. by apply elem_of_singleton.
  - unfold served, dispatched. rewrite Hs2, Hw2, Hst, Hs, fmap_app. simpl.
    by rewrite <- !app_assoc, <- Hw, <- Hwt.
Qed.

Lemma timeout_latency_witness :
  ∃ c', run (replicate 3 Tick)
          (after [Tick] (scenario_start request1)) = Ok c'
      ∧ processing_time (transaction c') = 6.0%float.
Proof.
  destruct (timeout_latency 3 (after [Tick] (scenario_start request1))
              (dialogue 1 request1))
    as (c' & E & Ht & _).
  - vm_compute. reflexivity.
  - intros k Hk.
    destruct k as [|[|[|k]]]; [vm_compute; reflexivity .. | lia].
  - exists c'. split; [exact E |]. rewrite Ht. vm_compute. reflexivity.
Defined.

(** X7. With the default settings (tick interval 2.0, budget 120) a
    dispatch that gets no completion stays in the slot for 61 further ticks,
    the last of which leaves the elapsed time at 122.0, and is timed out by
    the 62nd tick. *)
Theorem default_timeout_after_61_ticks (c : Context)
    (p : LedgerApiDialogue) :
  tick_interval (transaction c) = DEFAULT_TX_INTERVAL →
  max_processing (transaction c) = DEFAULT_MAX_PROCESSING →
  processing (transaction c) = Some p →
  processing_time (transaction c) = 0.0%float →
  (∀ n, n ≤ 61 →
     ∃ c', run (replicate n Tick) c = Ok c'
       ∧ processing (transaction c') = Some p
       ∧ timedout (transaction c') = timedout (transaction c))
  ∧ ∃ c61 c62, run (replicate 61 Tick) c = Ok c61
      ∧ processing_time (transaction c61) = 122.0%float
      ∧ act c61 = Ok c62
      ∧ dialogue_label p ∈ timedout (transaction c62).
Proof.
  intros Hti Hmax Hp Ht0.
  assert (∀ k, elapsed_after k c
               = Nat.iter k (λ t, PrimFloat.add t 2.0%float) 0.0%float)
    as Hel.
  { intros k. unfold elapsed_after. by rewrite Hti, Ht0. }
  assert (∀ k, k < 61 →
            PrimFloat.leb (elapsed_after k c)
              (max_processing (transaction c)) = true) as Hwithin.
  { intros k Hk. rewrite Hel, Hmax.
    do 61 (destruct k as [|k]; [vm_compute; reflexivity |]). lia. }
  split.
  - intros n Hn.
    destruct (run_waiting_ticks n c p Hp)
      as (c' & E & _ & Hp' & _ & Hto & _).
    { intros k Hk. apply Hwithin. lia. }
    by exists c'.
  - destruct (run_waiting_ticks 61 c p Hp Hwithin)
      as (c61 & E & Ht & Hp' & Hw & Hto & Hm & Hs & Ho).
    assert (processing_time (transaction c61) = 122.0%float) as Ht61.
    { rewrite Ht, Hel. vm_compute. reflexivity. }
    assert (overdue c61) as Hod.
    { unfold overdue. rewrite Ht61, Hm, Hmax. vm_compute. reflexivity. }
    destruct (_timeout_processing_spec c61 p Hp') as (_ & Hwt & Htt & _).
    destruct (waiting (transaction (_timeout_processing c61)))
      as [|f rest] eqn:Hq.
    { by destruct (waiting (transaction c61)). }
    destruct (_start_processing_spec _ _ _ Hq) as (c62 & E2 & _ & _ & Ht2 & _).
    exists c61, c62. split_and!; [done | done | |].
    + by rewrite (act_timeout c61 p Hp' Hod).
    + rewrite Ht2, Htt. apply elem_of_union_l. by apply elem_of_singleton.
Qed.

Lemma default_timeout_after_61_ticks_witness :
  ∃ c61, run (replicate 61 Tick)
           (after [Tick]
              (enqueue request1
                 (initial DEFAULT_TX_INTERVAL DEFAULT_MAX_PROCESSING)))
         = Ok c61
       ∧ processing_time (transaction c61) = 122.0%float.
Proof.
  destruct (default_timeout_after_61_ticks
              (after [Tick]
                 (enqueue request1
                    (initial DEFAULT_TX_INTERVAL DEFAULT_MAX_PROCESSING)))
              (dialogue 1 request1))
    as (_ & c61 & c62 & E & Ht & _).
  - vm_compute. reflexivity.
  - vm_compute. reflexivity.
  - vm_compute. reflexivity.
  - vm_compute. reflexivity.
  - exists c61. split; [exact E | exact Ht].
Defined.

(** ** The search gate and the dispatch slot *)

(** X8. The search gate looks at the queue only, not at the slot: with
    searching enabled, an empty slot and one request waiting, the search
    tick sends nothing; once the transaction tick has dispatched that
    request, the search tick sends its query although the request is still
    in flight. *)
Theorem search_resumes_while_in_flight
    (update_search_query_params : GenericStrategy → GenericStrategy)
    (get_location_and_service_query : GenericStrategy → Query)
    (c : Context) (f : FipaDialogue) :
  is_searching (strategy c) = true →
  processing (transaction c) = None →
  waiting (transaction c) = [f] →
  outbox (GenericSearchBehaviour.act update_search_query_params
            get_location_and_service_query c) = outbox c
  ∧ ∃ c1, act c = Ok c1
      ∧ processing (transaction c1) = Some (dispatch_of f c)
      ∧ outbox (GenericSearchBehaviour.act update_search_query_params
                  get_location_and_service_query c1)
        = outbox c1
          ++ [SEARCH_SERVICES
                (get_location_and_service_query
                   (update_search_query_params (strategy c)))].
Proof.
  intros Hs Hp Hw. split.
  - unfold GenericSearchBehaviour.act. by rewrite Hs, Hw.
  - rewrite (act_dispatch c f [] Hp Hw).
    destruct (_start_processing_spec c f [] Hw)
      as (c1 & E1 & Hp1 & Hw1 & _ & _ & _ & _ & _ & _ & Hst1).
    exists c1. split_and!; [done | done |].
    unfold GenericSearchBehaviour.act. by rewrite Hst1, Hs, Hw1.
Qed.

Lemma search_resumes_while_in_flight_witness :
  ∃ c1, act (set_strategy
               {| is_searching := true; is_in_flight := false;
                  is_c2d_active := false; is_processing := false;
                  has_completed_c2d_job := false; purchased_data := None;
                  search_params := 7 |}
               (scenario_start request1)) = Ok c1
      ∧ outbox (GenericSearchBehaviour.act (λ s, s) search_params c1)
        = [GET_RAW_TRANSACTION 1 10; SEARCH_SERVICES 7].
Proof.
  destruct (search_resumes_while_in_flight (λ s, s) search_params
              (set_strategy
                 {| is_searching := true; is_in_flight := false;
                    is_c2d_active := false; is_processing := false;
                    has_completed_c2d_job := false; purchased_data := None;
                    search_params := 7 |}
                 (scenario_start request1)) request1)
    as (_ & c1 & E & _ & Ho).
  - reflexivity.
  - reflexivity.
  - reflexivity.
  - exists c1. split; [exact E |]. rewrite Ho.
    vm_compute in E. injection E as <-. reflexivity.
Defined.

(** ** The compute-job behaviour, once more *)

(** X9. The compute-job tick is idempotent: invoking [act] a second time
    changes nothing, whatever the flags; a submission sets the in-flight
    flag and a hand-off clears the active flag, and either stops the next
    invocation at its first test. *)
Theorem c2d_act_idempotent (SENDER_ID : string) (c : Context) :
  OceanC2DBehaviour.act SENDER_ID (OceanC2DBehaviour.act SENDER_ID c)
  = OceanC2DBehaviour.act SENDER_ID c.
Proof.
  destruct c as [[s f a p h d sp] tx st oef ob lg].
  unfold OceanC2DBehaviour.act. simpl.
  destruct f, a, h, d; reflexivity.
Qed.

(** X10. Once the job has completed nothing is submitted: with
    [has_completed_c2d_job] set, [act] leaves the outbox and the in-flight
    flag alone even when purchased data is present; if the behaviour is
    active and nothing is in flight it turns [is_c2d_active] and
    [is_processing] off and logs the completion, once. *)
Theorem c2d_completion_hands_off (SENDER_ID : string) (c : Context) :
  has_completed_c2d_job (strategy c) = true →
  outbox (OceanC2DBehaviour.act SENDER_ID c) = outbox c
  ∧ is_in_flight (strategy (OceanC2DBehaviour.act SENDER_ID c))
    = is_in_flight (strategy c)
  ∧ (is_in_flight (strategy c) = false →
     is_c2d_active (strategy c) = true →
     is_c2d_active (strategy (OceanC2DBehaviour.act SENDER_ID c)) = false
     ∧ is_processing (strategy (OceanC2DBehaviour.act SENDER_ID c)) = false
     ∧ logger (OceanC2DBehaviour.act SENDER_ID c)
       = logger c ++ [(INFO, CompletedC2D)]
     ∧ logger (OceanC2DBehaviour.act SENDER_ID
                 (OceanC2DBehaviour.act SENDER_ID c))
       = logger c ++ [(INFO, CompletedC2D)]).
Proof.
  destruct c as [[s f a p h d sp] tx st oef ob lg]. simpl. intros ->.
  unfold OceanC2DBehaviour.act. simpl.
  split_and!.
  - by destruct f, a, d.
  - by destruct f, a, d.
  - intros -> ->. simpl. by destruct d.
Qed.

Lemma c2d_completion_hands_off_witness :
  outbox (OceanC2DBehaviour.act "eightballer/ocean_buyer:0.1.0"
            (set_strategy
               {| is_searching := false; is_in_flight := false;
                  is_c2d_active := true; is_processing := true;
                  has_completed_c2d_job := true;
                  purchased_data := Some [("did", "did:op:1")];
                  search_params := 0 |}
               (initial 2.0%float 4.0%float))) = [].
Proof.
  refine (proj1 (c2d_completion_hands_off _ _ _)). reflexivity.
Defined.

(** ** The bytes-literal helper *)

Lemma substring_0_0 s : String.substring 0 0 s = EmptyString.
Proof. by destruct s. Qed.



Lemma prefix_of_data_two a b rest :
  utils.prefix_of_data (String a (String b rest))
  = String a (String b EmptyString).
Proof. unfold utils.prefix_of_data. simpl. by rewrite substring_0_0. Qed.




(** X11. Data without the bytes-literal prefix is refused before the
    decoder is consulted: whenever [data] does not start with [b'] or with
    [b] and a double quote (the empty string and one-character strings
    included), [convert_to_bytes_format] fails its first assertion,
    whatever the decoder would do. *)
Theorem convert_rejects_unprefixed
    (escape_decode : string → utils.raised + list Byte.byte)
    (data : string) :
  (∀ rest, data ≠ String.append utils.single_quoted rest
           ∧ data ≠ String.append utils.double_quoted rest) →
  utils.convert_to_bytes_format escape_decode data
  = inl (utils.AssertionError "Data has not the bytes literal prefix").
Proof.
  intros Hno. unfold utils.convert_to_bytes_format.
  rewrite decide_False; [done |]. intros Hin.
  destruct data as [|a [|b rest]].
  - apply elem_of_cons in Hin as [Hin | Hin]; [discriminate Hin |].
    apply list_elem_of_singleton in Hin. discriminate Hin.
  - apply elem_of_cons in Hin as [Hin | Hin]; [discriminate Hin |].
    apply list_elem_of_singleton in Hin. discriminate Hin.
  - rewrite prefix_of_data_two in Hin.
    apply elem_of_cons in Hin as [Hin | Hin].
    + injection Hin as -> ->. by destruct (Hno rest) as [H _].
    + apply list_elem_of_singleton in Hin. injection Hin as -> ->.
      by destruct (Hno rest) as [_ H].
Qed.

Lemma convert_rejects_unprefixed_witness :
  utils.convert_to_bytes_format
    (λ s, inr (String.list_byte_of_string s)) "'abc'"
  = inl (utils.AssertionError "Data has not the bytes literal prefix").
Proof.
  apply convert_rejects_unprefixed.
  intros rest. split; intros H; discriminate H.
Defined.


